(** * JP_Generator: the generation model of 112450039_林念慈_JP_Generate.py

    A shallow embedding of the three generator classes ([PhonologySystem],
    [MorphologySystem], [SyntaxSystem]) and of the handlers of
    [JapaneseLanguageCreatorUI] that read and write the vocabulary store.

    - Python [str] is [string]; one [ascii] stands for one character.
    - Python's [random] module is a tape of raw draws that every call
      consumes from; nothing is assumed about the tape, so every theorem
      holds for every outcome of the generator.
    - A raised exception is the [Raise] result; [random.choice] on an empty
      sequence raises [IndexError], a missing [dict] key raises [KeyError].
    - A [dict] is an association list in insertion order. *)

From Stdlib Require Import ZArith.
From stdpp Require Import base list strings pretty.

Local Open Scope Z_scope.

(** ** Exceptions and the generator monad *)

Inductive exn : Set := IndexError | KeyError.

Inductive result (A : Type) : Type :=
  | Ok (a : A)
  | Raise (e : exn).
Arguments Ok {A} a.
Arguments Raise {A} e.

(** The state of the global [random] generator: the draws still to come. *)
Definition Rng : Type := nat → nat.

Definition Gen (A : Type) : Type := Rng → result (A * Rng).

Definition gret {A} (a : A) : Gen A := λ r, Ok (a, r).

Definition gbind {A B} (m : Gen A) (k : A → Gen B) : Gen B :=
  λ r, match m r with
       | Ok (a, r') => k a r'
       | Raise e => Raise e
       end.

Definition graise {A} (e : exn) : Gen A := λ _, Raise e.

Notation "'let*' x ':=' m 'in' k" := (gbind m (λ x, k))
  (at level 10, x name, m at level 100, k at level 200, only parsing).

(** One raw draw from the tape. *)
Definition draw : Gen nat := λ r, Ok (r 0%nat, λ n, r (S n)).

(** [random.choice(seq)] *)
Definition random_choice {A} (seq : list A) : Gen A :=
  match seq with
  | [] => graise IndexError
  | d :: _ => let* x := draw in gret (nth (x mod length seq)%nat seq d)
  end.

(** [random.random() < 0.3]: only the outcome of the comparison is
    modelled, three raw residues out of ten give [true]. *)
Definition random_lt_0_3 : Gen bool :=
  let* x := draw in gret (x mod 10 <? 3)%nat.

(** [random.randint(a, b)], both ends included. *)
Definition random_randint (a b : Z) : Gen Z :=
  let* x := draw in gret (a + Z.of_nat x mod (b - a + 1)).

(** [for x in xs: s = body(s, x)], with [s] the variables the body
    assigns. *)
Fixpoint for_each {St X} (xs : list X) (body : St → X → Gen St) (s : St)
    : Gen St :=
  match xs with
  | [] => gret s
  | x :: xs' => let* s' := body s x in for_each xs' body s'
  end.

(** [range(n)]: empty when [n <= 0]. *)
Definition range (n : Z) : list Z := seqZ 0 n.

(** Truth value of a [str] and of a [list]. *)
Definition str_bool (s : string) : bool :=
  match s with EmptyString => false | String _ _ => true end.

Definition list_bool {A} (l : list A) : bool :=
  match l with [] => false | _ :: _ => true end.

(** ** PhonologySystem *)

(** The two [Set[str]] fields are kept as the list that [list(self.…)]
    yields; the theorems hold for any iteration order. *)
Record PhonologySystem : Type := {
  consonants : list string;
  vowels : list string;
  n_end : list string
}.

Definition PhonologySystem_default : PhonologySystem := {|
  consonants := ["k"; "s"; "t"; "n"; "h"; "m"; "y"; "r"; "w"];
  vowels := ["a"; "i"; "u"; "e"; "o"];
  n_end := ["n"; ""]
|}.

Definition generate_syllable (self : PhonologySystem) : Gen string :=
  let* c := random_choice (consonants self) in
  let* v := random_choice (vowels self) in
  let syllable := c +:+ v in
  let* nasal := random_lt_0_3 in
  if nasal : bool then
    let* n := random_choice (n_end self) in gret (syllable +:+ n)
  else gret syllable.

Definition verb_suffixes : list string := ["ru"; "mu"; "su"; "ku"; "ta"].
Definition noun_suffixes : list string := ["ko"; "mi"; "ra"; "to"; "na"].

(** [syllable_count is None] picks [random.randint(2, 3)]. *)
Definition resolve_count (syllable_count : option Z) : Gen Z :=
  match syllable_count with
  | None => random_randint 2 3
  | Some n => gret n
  end.

(** The rest of [generate_word], once [syllable_count] is an [int]. *)
Definition word_of_count (self : PhonologySystem)
    (syllable_count : Z) (word_type : string) : Gen string :=
  let* word := for_each (range syllable_count)
           (λ word _, let* s := generate_syllable self in gret (word +:+ s)) "" in
  if String.eqb word_type "verb" then
    let* sfx := random_choice verb_suffixes in gret (word +:+ sfx)
  else if String.eqb word_type "noun" then
    let* sfx := random_choice noun_suffixes in gret (word +:+ sfx)
  else gret word.

Definition generate_word (self : PhonologySystem)
    (syllable_count : option Z) (word_type : string) : Gen string :=
  let* syllable_count := resolve_count syllable_count in
  word_of_count self syllable_count word_type.

(** No [random.choice] of [generate_syllable] is from an empty sequence. *)
Definition choices_ok (self : PhonologySystem) : bool :=
  list_bool (consonants self) && list_bool (vowels self)
  && list_bool (n_end self).

(** Every consonant and every vowel has at least one character. *)
Definition cv_nonempty (self : PhonologySystem) : bool :=
  forallb str_bool (consonants self) && forallb str_bool (vowels self).

(** ** MorphologySystem *)

Record MorphologyRule : Type := {
  name : string;
  rule_type : string;
  marker : string;
  meaning : string
}.

Record MorphologySystem : Type := { rules : list MorphologyRule }.

Definition MorphologySystem_default : MorphologySystem := {| rules := [] |}.

Definition add_rule (self : MorphologySystem)
    (name rule_type marker meaning : string) : MorphologySystem :=
  let rule := Build_MorphologyRule name rule_type marker meaning in
  {| rules := rules self ++ [rule] |}.

(** The [for rule in self.rules] loop: a rule whose name matches but whose
    [rule_type] is neither ['prefix'] nor ['suffix'] falls out of both
    branches and the loop goes on. *)
Fixpoint apply_rules (rs : list MorphologyRule) (base_word rule_name : string)
    : string :=
  match rs with
  | [] => base_word
  | rule :: rest =>
      if String.eqb (name rule) rule_name then
        if String.eqb (rule_type rule) "prefix" then marker rule +:+ base_word
        else if String.eqb (rule_type rule) "suffix" then base_word +:+ marker rule
        else apply_rules rest base_word rule_name
      else apply_rules rest base_word rule_name
  end.

Definition apply_morphology (self : MorphologySystem)
    (base_word rule_name : string) : string :=
  apply_rules (rules self) base_word rule_name.

(** ** Python containers and string helpers *)

(** A [dict] with [str] keys, in insertion order. *)
Definition dict (V : Type) : Type := list (string * V).

Fixpoint dict_get {V} (d : dict V) (k : string) : option V :=
  match d with
  | [] => None
  | (k', v) :: d' => if String.eqb k' k then Some v else dict_get d' k
  end.

(** [d[k] = v]: an existing key keeps its position, a new one goes last. *)
Fixpoint dict_set {V} (d : dict V) (k : string) (v : V) : dict V :=
  match d with
  | [] => [(k, v)]
  | (k', v') :: d' =>
      if String.eqb k' k then (k', v) :: d' else (k', v') :: dict_set d' k v
  end.

(** [d[k]] on a plain [dict]. *)
Definition dict_getitem {V} (d : dict V) (k : string) : Gen V :=
  match dict_get d k with
  | Some v => gret v
  | None => graise KeyError
  end.

(** [d[k]] on a [defaultdict(list)]: a missing key is first stored with the
    empty list. *)
Definition defaultdict_getitem {V} (d : dict (list V)) (k : string)
    : list V * dict (list V) :=
  match dict_get d k with
  | Some v => (v, d)
  | None => ([], dict_set d k [])
  end.

(** [d[k].append(x)] on a [defaultdict(list)]. *)
Definition defaultdict_append {V} (d : dict (list V)) (k : string) (x : V)
    : dict (list V) :=
  let '(v, d') := defaultdict_getitem d k in dict_set d' k (v ++ [x]).

(** [x in t] for a tuple of [str]. *)
Definition str_in (x : string) (t : list string) : bool :=
  existsb (String.eqb x) t.

(** [s * n] *)
Fixpoint str_mul (s : string) (n : nat) : string :=
  match n with O => "" | S n' => s +:+ str_mul s n' end.

Definition nl : string := String (Ascii.ascii_of_nat 10) "".

(** [sorted(xs)] on strings. *)
Fixpoint sorted_insert (x : string) (xs : list string) : list string :=
  match xs with
  | [] => [x]
  | y :: ys => if String.ltb x y then x :: xs else y :: sorted_insert x ys
  end.

Definition sorted (xs : list string) : list string :=
  foldl (λ acc x, sorted_insert x acc) [] xs.

(** ** SyntaxSystem *)

Record SyntaxSystem : Type := {
  word_order : string;
  particles : dict (list string)
}.

Definition SyntaxSystem_default : SyntaxSystem := {|
  word_order := "SOV";
  particles := [("subject", ["wa"; "ga"]);
                ("object", ["wo"]);
                ("direction", ["e"; "o"])]
|}.

Definition generate_sentence (self : SyntaxSystem)
    (subject verb obj : string) (add_adverb : bool) (adverb : string)
    : Gen string :=
  let parts := [] in
  let* ps := dict_getitem (particles self) "subject" in
  let* p := random_choice ps in
  let parts := parts ++ [subject +:+ p] in
  let* parts :=
    if str_bool obj then
      let* ps := dict_getitem (particles self) "object" in
      let* p := random_choice ps in
      gret (parts ++ [obj +:+ p])
    else gret parts in
  let* parts :=
    if add_adverb && str_bool adverb then
      let* ps := dict_getitem (particles self) "direction" in
      let* p := random_choice ps in
      gret (parts ++ [adverb +:+ p])
    else gret parts in
  let parts := parts ++ [verb] in
  gret (String.concat " " parts +:+ ".").

(** ** JapaneseLanguageCreatorUI *)

(** The fields the handlers use. [output_text] is the scrolled text widget,
    kept as the list of texts inserted at its end. *)
Record JapaneseLanguageCreatorUI : Type := {
  phonology : PhonologySystem;
  morphology : MorphologySystem;
  syntax : SyntaxSystem;
  vocabulary : dict (list string);
  output_text : list string
}.

Definition with_morphology (self : JapaneseLanguageCreatorUI)
    (m : MorphologySystem) : JapaneseLanguageCreatorUI :=
  {| phonology := phonology self; morphology := m; syntax := syntax self;
     vocabulary := vocabulary self; output_text := output_text self |}.

Definition with_vocabulary (self : JapaneseLanguageCreatorUI)
    (v : dict (list string)) : JapaneseLanguageCreatorUI :=
  {| phonology := phonology self; morphology := morphology self;
     syntax := syntax self; vocabulary := v;
     output_text := output_text self |}.

Definition append_output (self : JapaneseLanguageCreatorUI) (text : string)
    : JapaneseLanguageCreatorUI :=
  {| phonology := phonology self; morphology := morphology self;
     syntax := syntax self; vocabulary := vocabulary self;
     output_text := output_text self ++ [text +:+ nl] |}.

(** [self.vocabulary[k]] *)
Definition vocabulary_getitem (self : JapaneseLanguageCreatorUI) (k : string)
    : list string * JapaneseLanguageCreatorUI :=
  let '(ws, v) := defaultdict_getitem (vocabulary self) k in
  (ws, with_vocabulary self v).

(** [self.vocabulary[k].append(word)], with [word] already evaluated: the
    lookup that Python does before it evaluates the argument stores at most
    the empty list under [k], which the append then overwrites. *)
Definition vocabulary_append (self : JapaneseLanguageCreatorUI)
    (k word : string) : JapaneseLanguageCreatorUI :=
  with_vocabulary self (defaultdict_append (vocabulary self) k word).

Definition init_default_rules (self : JapaneseLanguageCreatorUI)
    : JapaneseLanguageCreatorUI :=
  let self := with_morphology self
    (add_rule (morphology self) "plural" "suffix" "tachi" "複數") in
  let self := with_morphology self
    (add_rule (morphology self) "past" "suffix" "ta" "過去式") in
  with_morphology self
    (add_rule (morphology self) "negative" "prefix" "fu" "否定").

(** [__init__], up to the construction of the window. *)
Definition JapaneseLanguageCreatorUI_init : JapaneseLanguageCreatorUI :=
  init_default_rules
    {| phonology := PhonologySystem_default;
       morphology := MorphologySystem_default;
       syntax := SyntaxSystem_default;
       vocabulary := [];
       output_text := [] |}.

(** [enumerate(xs, start)] *)
Fixpoint enumerate {A} (xs : list A) (start : Z) : list (Z * A) :=
  match xs with
  | [] => []
  | x :: xs' => (start, x) :: enumerate xs' (start + 1)
  end.

Definition generate_vocabulary (self : JapaneseLanguageCreatorUI)
    : Gen JapaneseLanguageCreatorUI :=
  let self := append_output self (nl +:+ "🎲 生成新詞彙：") in
  let self := append_output self (str_mul "-" 50) in
  let word_types :=
    [("noun", "名詞"); ("verb", "動詞"); ("noun", "名詞");
     ("adjective", "形容詞"); ("noun", "名詞")] in
  let* self :=
    for_each (enumerate word_types 1)
      (λ self '(i, (word_type, chinese)),
         let* n := random_randint 2 3 in
         let* word := generate_word (phonology self) (Some n) word_type in
         let self := vocabulary_append self word_type word in
         gret (append_output self
                 (pretty i +:+ ". " +:+ word +:+ " (" +:+ chinese +:+ ")")))
      self in
  gret (append_output self (nl +:+ "✅ 已生成 5 個詞語！")).

Definition show_morphology (self : JapaneseLanguageCreatorUI)
    : Gen JapaneseLanguageCreatorUI :=
  let self := append_output self (nl +:+ "🔧 構詞變化展示：") in
  let self := append_output self (str_mul "-" 50) in
  let '(nouns, self) := vocabulary_getitem self "noun" in
  let* self :=
    if list_bool nouns then
      let '(nouns, self) := vocabulary_getitem self "noun" in
      let* noun := random_choice nouns in
      let plural := apply_morphology (morphology self) noun "plural" in
      gret (append_output self ("名詞複數: " +:+ noun +:+ " → " +:+ plural))
    else gret self in
  let '(verbs, self) := vocabulary_getitem self "verb" in
  let* self :=
    if list_bool verbs then
      let '(verbs, self) := vocabulary_getitem self "verb" in
      let* verb := random_choice verbs in
      let past := apply_morphology (morphology self) verb "past" in
      gret (append_output self ("動詞過去式: " +:+ verb +:+ " → " +:+ past))
    else gret self in
  match dict_get (vocabulary self) "adjective" with
  | Some (_ :: _) =>
      let '(adjs, self) := vocabulary_getitem self "adjective" in
      let* adj := random_choice adjs in
      let neg := apply_morphology (morphology self) adj "negative" in
      gret (append_output self ("形容詞否定: " +:+ adj +:+ " → " +:+ neg))
  | _ => gret self
  end.

Definition sentence_patterns : list (list string) :=
  [["S"; "O"; "V"]; ["S"; "V"]; ["S"; "O"; "V"; "Adv"]].

(** The first part of [generate_sentences]: the two [if not …] blocks that
    fill an empty noun or verb class. *)
Definition seed_vocabulary (self : JapaneseLanguageCreatorUI)
    : Gen JapaneseLanguageCreatorUI :=
  let '(nouns, self) := vocabulary_getitem self "noun" in
  let* self :=
    if negb (list_bool nouns) then
      for_each (range 3)
        (λ self _,
           let* w := generate_word (phonology self) (Some 2) "noun" in
           gret (vocabulary_append self "noun" w))
        self
    else gret self in
  let '(verbs, self) := vocabulary_getitem self "verb" in
  if negb (list_bool verbs) then
    for_each (range 2)
      (λ self _,
         let* w := generate_word (phonology self) (Some 2) "verb" in
         gret (vocabulary_append self "verb" w))
      self
  else gret self.

(** The body of the [for i in range(count)] loop of [generate_sentences]. *)
Definition sentence_step (self : JapaneseLanguageCreatorUI) (i : Z)
    : Gen JapaneseLanguageCreatorUI :=
  let* pattern := random_choice sentence_patterns in
  let '(nouns, self) := vocabulary_getitem self "noun" in
  let* subject := random_choice nouns in
  let '(verbs, self) := vocabulary_getitem self "verb" in
  let* verb := random_choice verbs in
  let* os :=
    if str_in "O" pattern then
      let '(nouns, self) := vocabulary_getitem self "noun" in
      let* o := random_choice nouns in gret (o, self)
    else gret ("", self) in
  let '(obj, self) := os in
  let add_adverb := str_in "Adv" pattern in
  let* adverb :=
    if add_adverb then generate_word (phonology self) (Some 2) "noun"
    else gret "" in
  let* sentence :=
    generate_sentence (syntax self) subject verb obj add_adverb adverb in
  gret (append_output self (pretty (i + 1) +:+ ". " +:+ sentence)).

Definition generate_sentences (self : JapaneseLanguageCreatorUI) (count : Z)
    : Gen JapaneseLanguageCreatorUI :=
  let self :=
    append_output self (nl +:+ "📝 生成 " +:+ pretty count +:+ " 個句子：") in
  let self := append_output self (str_mul "-" 50) in
  let* self := seed_vocabulary self in
  for_each (range count) sentence_step self.

Definition final_showcase (self : JapaneseLanguageCreatorUI)
    : Gen JapaneseLanguageCreatorUI :=
  let self := append_output self (nl +:+ str_mul "=" 50) in
  let self := append_output self "🎉 你創造的日語風格語言展示 🎉" in
  let self := append_output self (str_mul "=" 50) in
  let self := append_output self (nl +:+ "🔤 音韻系統:") in
  let self := append_output self
    ("   子音: " +:+ String.concat ", " (sorted (consonants (phonology self)))) in
  let self := append_output self
    ("   母音: " +:+ String.concat ", " (sorted (vowels (phonology self)))) in
  let self := append_output self "   音節結構: CV, CVN (鼻音結尾)" in
  let self := append_output self (nl +:+ "🔧 構詞系統:") in
  let self :=
    foldl (λ self rule,
             append_output self
               ("   • " +:+ meaning rule +:+ ": " +:+ marker rule +:+ " ("
                +:+ rule_type rule +:+ ")"))
      self (rules (morphology self)) in
  let self := append_output self (nl +:+ "📝 句法系統:") in
  let self := append_output self
    ("   基本語序: " +:+ word_order (syntax self) +:+ " (主語-賓語-動詞)") in
  let self := append_output self
    "   助詞系統: は/が (主格), を (受格), へ/を (方向)" in
  let self := append_output self (nl +:+ "📚 詞彙統計:") in
  let self :=
    foldl (λ self '(word_class, words),
             if list_bool words then
               append_output self
                 ("   " +:+ word_class +:+ ": "
                  +:+ pretty (Z.of_nat (length words)) +:+ " 個")
             else self)
      self (vocabulary self) in
  let self := append_output self (nl +:+ "🌟 範例句子:") in
  let* self := generate_sentences self 3 in
  gret (append_output self (nl +:+ str_mul "=" 50)).

(** The word list of a class; a class that was never stored has none. *)
Definition words_of (v : dict (list string)) (k : string) : list string :=
  default [] (dict_get v k).

(** The particles of a role; none when the role is not a key. *)
Definition particle_list (self : SyntaxSystem) (role : string) : list string :=
  default [] (dict_get (particles self) role).

(** The three particle lists are present and none is empty. *)
Definition syntax_ok (self : SyntaxSystem) : bool :=
  list_bool (particle_list self "subject")
  && list_bool (particle_list self "object")
  && list_bool (particle_list self "direction").

(** ** Specification vocabulary *)

(** [m] returns, from every state of the generator, a value in [P]. *)
Definition total {A} (m : Gen A) (P : A → Prop) : Prop :=
  ∀ r, ∃ a r', m r = Ok (a, r') ∧ P a.

Definition syllable_shape (self : PhonologySystem) (s : string) : Prop :=
  ∃ c v tail, s = c +:+ v +:+ tail ∧ c ∈ consonants self ∧ v ∈ vowels self
              ∧ (tail = "" ∨ tail ∈ n_end self).

Definition ends_with_one_of (sfxs : list string) (w : string) : Prop :=
  ∃ stem sfx, sfx ∈ sfxs ∧ w = stem +:+ sfx.

(** The system obtained from the empty one by one [add_rule] call per
    element of [rs], in order. *)
Definition build_rules (rs : list MorphologyRule) : MorphologySystem :=
  foldl (λ m q, add_rule m (name q) (rule_type q) (marker q) (meaning q))
    MorphologySystem_default rs.

Definition is_affix (q : MorphologyRule) : Prop :=
  rule_type q = "prefix" ∨ rule_type q = "suffix".

(** The phrases of a sentence, given the particles that were drawn. *)
Definition sentence_phrases (subject verb obj : string) (add_adverb : bool)
    (adverb sp op dp : string) : list string :=
  [subject +:+ sp]
  ++ (if decide (obj = "") then [] else [obj +:+ op])
  ++ (if decide (add_adverb = true ∧ adverb ≠ "") then [adverb +:+ dp] else []).

(** [b] has the generators and the stored words of [a]. *)
Definition same_store (a b : JapaneseLanguageCreatorUI) : Prop :=
  phonology b = phonology a ∧ syntax b = syntax a
  ∧ ∀ k, words_of (vocabulary b) k = words_of (vocabulary a) k.

(** [b] has the generators of [a], and every class of [a] is a prefix of the
    same class of [b]. *)
Definition grows (a b : JapaneseLanguageCreatorUI) : Prop :=
  phonology b = phonology a ∧ syntax b = syntax a
  ∧ ∀ k, words_of (vocabulary a) k `prefix_of` words_of (vocabulary b) k.

Definition ui_ok (self : JapaneseLanguageCreatorUI) : bool :=
  choices_ok (phonology self) && syntax_ok (syntax self).

(** What one [if not self.vocabulary[k]] block does to the store: an empty
    class [k] gets [n] words, a non-empty one is left alone, and no other
    class changes. *)
Definition seeded (k : string) (n : nat) (a b : JapaneseLanguageCreatorUI)
    : Prop :=
  phonology b = phonology a ∧ syntax b = syntax a
  ∧ (∀ k', k' ≠ k → words_of (vocabulary b) k' = words_of (vocabulary a) k')
  ∧ (words_of (vocabulary a) k = [] → length (words_of (vocabulary b) k) = n)
  ∧ (words_of (vocabulary a) k ≠ [] →
     words_of (vocabulary b) k = words_of (vocabulary a) k).

(** The suffixes [generate_word] draws from for a word type; an
    unrecognized type gets no suffix. *)
Definition word_suffixes (word_type : string) : list string :=
  if String.eqb word_type "verb" then verb_suffixes
  else if String.eqb word_type "noun" then noun_suffixes
  else [""].

(** Every consonant and vowel is one character, every nasal ending at most
    one. *)
Definition unit_tokens (self : PhonologySystem) : bool :=
  forallb (λ c, Nat.eqb (String.length c) 1) (consonants self)
  && forallb (λ v, Nat.eqb (String.length v) 1) (vowels self)
  && forallb (λ e, Nat.leb (String.length e) 1) (n_end self).

(** The number of characters the suffix of a word type adds. *)
Definition suffix_length (word_type : string) : Z :=
  if String.eqb word_type "verb" || String.eqb word_type "noun" then 2 else 0.

(** [is_affix] as a test. *)
Definition is_affixb (q : MorphologyRule) : bool :=
  String.eqb (rule_type q) "prefix" || String.eqb (rule_type q) "suffix".

(** The exception a role without usable particles gives: [KeyError] when
    the role is no key of [particles], [IndexError] when its list is empty. *)
Definition particle_error (self : SyntaxSystem) (role : string) : exn :=
  match dict_get (particles self) role with
  | Some _ => IndexError
  | None => KeyError
  end.

(** [b] has the three generator systems of [a]. *)
Definition frame (a b : JapaneseLanguageCreatorUI) : Prop :=
  phonology b = phonology a ∧ morphology b = morphology a
  ∧ syntax b = syntax a.

(** [b] is [a] with [lines] written at the end of the output: the generator
    systems and the stored words are those of [a]. *)
Definition says (lines : list string) (a b : JapaneseLanguageCreatorUI)
    : Prop :=
  frame a b
  ∧ (∀ k, words_of (vocabulary b) k = words_of (vocabulary a) k)
  ∧ output_text b = output_text a ++ lines.

(** What [show_morphology] writes for one word class: nothing when the class
    has no word, otherwise one line with a stored word and its variant. *)
Definition morphology_lines (label rule : string) (m : MorphologySystem)
    (ws : list string) (lines : list string) : Prop :=
  (ws = [] ∧ lines = [])
  ∨ (∃ w, w ∈ ws
          ∧ lines = [(label +:+ w +:+ " → " +:+ apply_morphology m w rule)
                     +:+ nl]).

(** The line [generate_sentences] writes in round [i]: the round number and
    a sentence whose subject and object are stored nouns and whose verb is a
    stored verb; an adverb only comes with an object. *)
Definition sentence_line (self : JapaneseLanguageCreatorUI) (i : Z)
    (line : string) : Prop :=
  ∃ subject verb obj add_adverb adverb sp op dp,
    subject ∈ words_of (vocabulary self) "noun"
    ∧ verb ∈ words_of (vocabulary self) "verb"
    ∧ (obj = "" ∨ obj ∈ words_of (vocabulary self) "noun")
    ∧ (add_adverb = true → obj ∈ words_of (vocabulary self) "noun")
    ∧ sp ∈ particle_list (syntax self) "subject"
    ∧ op ∈ particle_list (syntax self) "object"
    ∧ dp ∈ particle_list (syntax self) "direction"
    ∧ line =
        (pretty (i + 1) +:+ ". "
         +:+ (String.concat " "
                (sentence_phrases subject verb obj add_adverb adverb sp op dp
                 ++ [verb]) +:+ ".")) +:+ nl.

(** The effect of the seeding part of [generate_sentences] on the store: an
    empty noun class gets three words and an empty verb class two, a class
    that has words keeps them, and no other class changes. *)
Definition store_seeded (a c : JapaneseLanguageCreatorUI) : Prop :=
  (∀ k, k ≠ "noun" → k ≠ "verb" →
        words_of (vocabulary c) k = words_of (vocabulary a) k)
  ∧ (words_of (vocabulary a) "noun" ≠ [] →
     words_of (vocabulary c) "noun" = words_of (vocabulary a) "noun")
  ∧ (words_of (vocabulary a) "verb" ≠ [] →
     words_of (vocabulary c) "verb" = words_of (vocabulary a) "verb")
  ∧ (words_of (vocabulary a) "noun" = [] →
     length (words_of (vocabulary c) "noun") = 3%nat)
  ∧ (words_of (vocabulary a) "verb" = [] →
     length (words_of (vocabulary c) "verb") = 2%nat).

(** [self] with [lines] written at the end of the output. *)
Definition write_lines (self : JapaneseLanguageCreatorUI)
    (lines : list string) : JapaneseLanguageCreatorUI :=
  {| phonology := phonology self; morphology := morphology self;
     syntax := syntax self; vocabulary := vocabulary self;
     output_text := output_text self ++ lines |}.

(** The line [final_showcase] writes for one morphology rule. *)
Definition rule_line (q : MorphologyRule) : string :=
  ("   • " +:+ meaning q +:+ ": " +:+ marker q +:+ " (" +:+ rule_type q
   +:+ ")") +:+ nl.

(** The statistics lines of [final_showcase]: one per key of the store whose
    list is not empty, in the order of the keys. *)
Definition stat_lines (v : dict (list string)) : list string :=
  flat_map
    (λ '(word_class, words),
       if list_bool words then
         [("   " +:+ word_class +:+ ": "
           +:+ pretty (Z.of_nat (length words)) +:+ " 個") +:+ nl]
       else [])
    v.

(** Everything [final_showcase] writes before it calls
    [generate_sentences]. *)
Definition showcase_header (self : JapaneseLanguageCreatorUI) : list string :=
  [(nl +:+ str_mul "=" 50) +:+ nl;
   "🎉 你創造的日語風格語言展示 🎉" +:+ nl;
   str_mul "=" 50 +:+ nl;
   (nl +:+ "🔤 音韻系統:") +:+ nl;
   ("   子音: " +:+ String.concat ", " (sorted (consonants (phonology self))))
   +:+ nl;
   ("   母音: " +:+ String.concat ", " (sorted (vowels (phonology self))))
   +:+ nl;
   "   音節結構: CV, CVN (鼻音結尾)" +:+ nl;
   (nl +:+ "🔧 構詞系統:") +:+ nl]
  ++ map rule_line (rules (morphology self))
  ++ [(nl +:+ "📝 句法系統:") +:+ nl;
      ("   基本語序: " +:+ word_order (syntax self) +:+ " (主語-賓語-動詞)")
      +:+ nl;
      "   助詞系統: は/が (主格), を (受格), へ/を (方向)" +:+ nl;
      (nl +:+ "📚 詞彙統計:") +:+ nl]
  ++ stat_lines (vocabulary self)
  ++ [(nl +:+ "🌟 範例句子:") +:+ nl].

(** A state in use: the systems of [__init__] and a store that already holds
    words of three classes. *)
Definition stocked_ui : JapaneseLanguageCreatorUI :=
  {| phonology := PhonologySystem_default;
     morphology := morphology JapaneseLanguageCreatorUI_init;
     syntax := SyntaxSystem_default;
     vocabulary := [("noun", ["nekoko"; "inumi"]); ("verb", ["taberu"]);
                    ("adjective", ["akai"])];
     output_text := [] |}.

(** * Properties *)

(** ** Strings *)

Lemma string_app_cons (x : Ascii.ascii) (a b : string) :
  String x a +:+ b = String x (a +:+ b).
Proof. reflexivity. Qed.

Lemma string_app_assoc (a b c : string) : (a +:+ b) +:+ c = a +:+ b +:+ c.
Proof.
  induction a as [|x a IH]; [done |]. by rewrite !string_app_cons, IH.
Qed.

Lemma string_app_nil_r (a : string) : a +:+ "" = a.
Proof.
  induction a as [|x a IH]; [done |]. by rewrite string_app_cons, IH.
Qed.

Lemma string_length_app (a b : string) :
  String.length (a +:+ b) = (String.length a + String.length b)%nat.
Proof.
  induction a as [|x a IH]; [done |]. rewrite string_app_cons. simpl.
  by rewrite IH.
Qed.

Lemma str_bool_true (s : string) : str_bool s = true ↔ s ≠ "".
Proof. by destruct s. Qed.

Lemma str_bool_length (s : string) :
  str_bool s = true → (1 ≤ String.length s)%nat.
Proof. destruct s; simpl; [done | lia]. Qed.

Lemma list_bool_true {A} (l : list A) : list_bool l = true ↔ l ≠ [].
Proof. by destruct l. Qed.

Lemma concat_snoc (sep : string) (xs : list string) (x : string) :
  xs ≠ [] → String.concat sep (xs ++ [x]) = String.concat sep xs +:+ sep +:+ x.
Proof.
  induction xs as [|y [|z xs] IH]; intros Hne; [done | done |].
  change (y +:+ sep +:+ String.concat sep ((z :: xs) ++ [x])
          = (y +:+ sep +:+ String.concat sep (z :: xs)) +:+ sep +:+ x).
  rewrite IH by done. by rewrite !string_app_assoc.
Qed.

(** ** Total runs of the generator monad *)

Lemma total_ret {A} (a : A) (P : A → Prop) : P a → total (gret a) P.
Proof. intros HP r. by exists a, r. Qed.

Lemma total_bind {A B} (m : Gen A) (k : A → Gen B) P Q :
  total m P → (∀ a, P a → total (k a) Q) → total (gbind m k) Q.
Proof.
  intros Hm Hk r. destruct (Hm r) as (a & r1 & Hr & Ha).
  destruct (Hk a Ha r1) as (b & r2 & Hr2 & Hb).
  exists b, r2. unfold gbind. by rewrite Hr.
Qed.

Lemma total_bind_ret {A B} (a : A) (k : A → Gen B) Q :
  total (k a) Q → total (gbind (gret a) k) Q.
Proof. intros Hk r. exact (Hk r). Qed.

Lemma total_mono {A} (m : Gen A) (P Q : A → Prop) :
  total m P → (∀ a, P a → Q a) → total m Q.
Proof.
  intros Hm HPQ r. destruct (Hm r) as (a & r1 & Hr & Ha). eauto.
Qed.

Lemma total_for_each {St X} (xs : list X) (body : St → X → Gen St)
    (I : St → Prop) (s : St) :
  I s → (∀ s x, I s → total (body s x) I) → total (for_each xs body s) I.
Proof.
  intros Hs Hbody. revert s Hs.
  induction xs as [|x xs IH]; intros s Hs; simpl.
  - by apply total_ret.
  - eapply total_bind; [by apply Hbody | done].
Qed.

(** A loop whose invariant counts the rounds. *)
Lemma total_for_each_indexed {St X} (xs : list X) (body : St → X → Gen St)
    (I : nat → St → Prop) (s : St) :
  I 0%nat s → (∀ n s x, I n s → total (body s x) (I (S n))) →
  total (for_each xs body s) (I (length xs)).
Proof.
  intros Hs Hbody.
  enough (∀ n s, I n s → total (for_each xs body s) (I (n + length xs)%nat))
    as H by exact (H 0%nat s Hs).
  induction xs as [|x xs IH]; intros n s' Hs'; simpl.
  - apply total_ret. by rewrite Nat.add_0_r.
  - eapply total_bind; [by apply Hbody |].
    intros a Ha. replace (n + S (length xs))%nat with (S n + length xs)%nat by lia.
    by apply IH.
Qed.

Lemma total_choice {A} (seq : list A) :
  seq ≠ [] → total (random_choice seq) (λ a, a ∈ seq).
Proof.
  intros Hne r. destruct seq as [|d seq]; [done |].
  eexists _, _. split; [reflexivity |].
  apply list_elem_of_In, nth_In, Nat.mod_upper_bound. simpl; lia.
Qed.

Lemma total_lt_0_3 : total random_lt_0_3 (λ _, True).
Proof. intros r. by eexists _, _. Qed.

Lemma total_randint (a b : Z) :
  a ≤ b → total (random_randint a b) (λ n, a ≤ n ≤ b).
Proof.
  intros Hab r. eexists _, _. split; [reflexivity |].
  pose proof (Z.mod_pos_bound (Z.of_nat (r 0%nat)) (b - a + 1)). lia.
Qed.

Lemma range_length (n : Z) : length (range n) = Z.to_nat n.
Proof. apply length_seqZ. Qed.

(** ** PhonologySystem *)

Lemma choices_ok_inv (p : PhonologySystem) :
  choices_ok p = true → consonants p ≠ [] ∧ vowels p ≠ [] ∧ n_end p ≠ [].
Proof.
  unfold choices_ok. rewrite !andb_true_iff, !list_bool_true. tauto.
Qed.

Lemma total_generate_syllable (p : PhonologySystem) :
  choices_ok p = true → total (generate_syllable p) (syllable_shape p).
Proof.
  intros (Hc & Hv & Hn)%choices_ok_inv. unfold generate_syllable.
  eapply total_bind; [by apply total_choice |]. intros c Hcin.
  eapply total_bind; [by apply total_choice |]. intros v Hvin.
  eapply total_bind; [apply total_lt_0_3 |]. intros [] _.
  - eapply total_bind; [by apply total_choice |]. intros n Hnin.
    apply total_ret. exists c, v, n. rewrite string_app_assoc. auto.
  - apply total_ret. exists c, v, "". rewrite string_app_nil_r. auto.
Qed.

Lemma syllable_shape_length (p : PhonologySystem) (s : string) :
  cv_nonempty p = true → syllable_shape p s → (2 ≤ String.length s)%nat.
Proof.
  unfold cv_nonempty. rewrite andb_true_iff, !forallb_forall.
  intros [Hc Hv] (c & v & tail & -> & Hcin & Hvin & _).
  apply list_elem_of_In, Hc, str_bool_length in Hcin.
  apply list_elem_of_In, Hv, str_bool_length in Hvin.
  rewrite !string_length_app. lia.
Qed.

Lemma suffix_length_2 (sfx : string) :
  sfx ∈ verb_suffixes ++ noun_suffixes → String.length sfx = 2%nat.
Proof.
  revert sfx. apply Forall_forall. by repeat constructor.
Qed.

Lemma total_word_of_count (p : PhonologySystem) (n : Z) (wt : string) :
  choices_ok p = true →
  total (word_of_count p n wt)
    (λ w, (cv_nonempty p = true → 2 * n ≤ Z.of_nat (String.length w))
          ∧ (wt = "verb" → ends_with_one_of verb_suffixes w)
          ∧ (wt = "noun" → ends_with_one_of noun_suffixes w)).
Proof.
  intros Hok. unfold word_of_count.
  eapply total_bind.
  { apply (total_for_each_indexed _ _
             (λ k w, cv_nonempty p = true → (2 * k ≤ String.length w)%nat));
      [simpl; lia |].
    intros k w _ Hw. eapply total_bind; [by apply total_generate_syllable |].
    intros s Hs. apply total_ret. intros Hcv.
    specialize (Hw Hcv). pose proof (syllable_shape_length p s Hcv Hs).
    rewrite string_length_app. lia. }
  rewrite range_length. intros w Hw.
  destruct (String.eqb_spec wt "verb") as [-> | Hverb].
  { eapply total_bind; [by apply total_choice |]. intros sfx Hsfx.
    apply total_ret. split_and!; [| by exists w, sfx | done].
    intros Hcv. specialize (Hw Hcv). rewrite string_length_app. lia. }
  destruct (String.eqb_spec wt "noun") as [-> | Hnoun].
  { eapply total_bind; [by apply total_choice |]. intros sfx Hsfx.
    apply total_ret. split_and!; [| done | by exists w, sfx].
    intros Hcv. specialize (Hw Hcv). rewrite string_length_app. lia. }
  apply total_ret. split_and!; [| done | done].
  intros Hcv. specialize (Hw Hcv). lia.
Qed.

Lemma total_resolve_count (sc : option Z) :
  total (resolve_count sc)
    (λ n, match sc with Some m => n = m | None => 2 ≤ n ≤ 3 end).
Proof.
  destruct sc as [m|]; simpl; [by apply total_ret | by apply total_randint].
Qed.

Lemma total_generate_word (p : PhonologySystem) (sc : option Z) (wt : string) :
  choices_ok p = true → total (generate_word p sc wt) (λ _, True).
Proof.
  intros Hok. unfold generate_word.
  eapply total_bind; [apply total_resolve_count |]. intros n _.
  eapply total_mono; [by apply total_word_of_count | done].
Qed.

Lemma ends_with_nonempty (sfxs : list string) (w : string) :
  sfxs ⊆ verb_suffixes ++ noun_suffixes → ends_with_one_of sfxs w → w ≠ "".
Proof.
  intros Hsub (stem & sfx & Hin & ->) Hw.
  apply Hsub, suffix_length_2 in Hin.
  apply (f_equal String.length) in Hw.
  rewrite string_length_app in Hw. simpl in Hw. lia.
Qed.

(** C7. Every syllable that [generate_syllable] returns is a consonant of the
    configured set, then a vowel of the configured set, then either nothing
    or one element of the nasal-ending options; with the three collections
    non-empty the call always returns. *)
Theorem generate_syllable_shape (p : PhonologySystem) (r : Rng) :
  choices_ok p = true →
  ∃ c v tail r',
    generate_syllable p r = Ok (c +:+ v +:+ tail, r')
    ∧ c ∈ consonants p ∧ v ∈ vowels p ∧ (tail = "" ∨ tail ∈ n_end p).
Proof.
  intros Hok.
  destruct (total_generate_syllable p Hok r)
    as (s & r' & Hrun & c & v & tail & -> & Hc & Hv & Ht).
  by exists c, v, tail, r'.
Qed.

Lemma generate_syllable_shape_witness :
  choices_ok PhonologySystem_default = true
  ∧ ∃ c v tail r',
      generate_syllable PhonologySystem_default (λ n, n) = Ok (c +:+ v +:+ tail, r')
      ∧ c ∈ consonants PhonologySystem_default
      ∧ v ∈ vowels PhonologySystem_default
      ∧ (tail = "" ∨ tail ∈ n_end PhonologySystem_default).
Proof.
  split; [reflexivity |].
  apply (generate_syllable_shape PhonologySystem_default (λ n, n)). reflexivity.
Defined.



(** C3, as stated, fails: with zero syllables and a word type that has no
    suffix the word is empty. *)
Lemma generate_word_empty_counterexample :
  ¬ (∀ (sc : option Z) (wt : string) (r : Rng) (w : string) (r' : Rng),
       generate_word PhonologySystem_default sc wt r = Ok (w, r') → w ≠ "").
Proof.
  intros H. by apply (H (Some 0) "adjective" (λ _, 0%nat) "" (λ _, 0%nat)).
Qed.

(** C3, amended. [generate_word] returns a non-empty word when the word type
    is "noun" or "verb", and also, every consonant and vowel being non-empty,
    when the syllable count is [None] or at least 1. *)
Theorem generate_word_nonempty (p : PhonologySystem) (sc : option Z)
    (wt : string) (r : Rng) :
  choices_ok p = true →
  wt = "noun" ∨ wt = "verb"
  ∨ (cv_nonempty p = true ∧ (sc = None ∨ ∃ n, sc = Some n ∧ 1 ≤ n)) →
  ∃ w r', generate_word p sc wt r = Ok (w, r') ∧ w ≠ "".
Proof.
  intros Hok Hcase.
  destruct (total_resolve_count sc r) as (n & r1 & Hn & Hsc).
  destruct (total_word_of_count p n wt Hok r1) as (w & r' & Hw & Hlen & Hv & Hno).
  exists w, r'. split; [unfold generate_word, gbind; by rewrite Hn |].
  destruct Hcase as [Hwt | [Hwt | [Hcv Hcount]]].
  - eapply ends_with_nonempty; [| by apply Hno].
    intros x Hx. apply elem_of_app. by right.
  - eapply ends_with_nonempty; [| by apply Hv].
    intros x Hx. apply elem_of_app. by left.
  - specialize (Hlen Hcv). intros ->. simpl in Hlen.
    destruct Hcount as [-> | (m & -> & Hm)]; lia.
Qed.

Lemma generate_word_nonempty_witness :
  choices_ok PhonologySystem_default = true
  ∧ ("adjective" = "noun" ∨ "adjective" = "verb"
     ∨ (cv_nonempty PhonologySystem_default = true
        ∧ (Some 1 = None ∨ ∃ n, Some 1 = Some n ∧ 1 ≤ n)))
  ∧ ∃ w r',
      generate_word PhonologySystem_default (Some 1) "adjective" (λ n, n)
      = Ok (w, r') ∧ w ≠ "".
Proof.
  assert (Hcase : "adjective" = "noun" ∨ "adjective" = "verb"
     ∨ (cv_nonempty PhonologySystem_default = true
        ∧ (Some 1 = None ∨ ∃ n, Some 1 = Some n ∧ 1 ≤ n))).
  { right. right. split; [reflexivity |]. right. exists 1. split; [reflexivity | lia]. }
  split; [reflexivity |]. split; [exact Hcase |].
  apply (generate_word_nonempty PhonologySystem_default (Some 1) "adjective" (λ n, n));
    [reflexivity | exact Hcase].
Defined.

(** ** MorphologySystem *)

Lemma rules_foldl_add_rule (rs : list MorphologyRule) (m : MorphologySystem) :
  rules (foldl (λ m q, add_rule m (name q) (rule_type q) (marker q) (meaning q))
           m rs) = rules m ++ rs.
Proof.
  revert m. induction rs as [|q rs IH]; intros m; simpl.
  - by rewrite app_nil_r.
  - rewrite IH. simpl. destruct q. by rewrite <- app_assoc.
Qed.

Lemma rules_build_rules (rs : list MorphologyRule) : rules (build_rules rs) = rs.
Proof. unfold build_rules. by rewrite rules_foldl_add_rule. Qed.

Lemma apply_rules_skip (pre rest : list MorphologyRule) (base rn : string) :
  Forall (λ q, ¬ (name q = rn ∧ is_affix q)) pre →
  apply_rules (pre ++ rest) base rn = apply_rules rest base rn.
Proof.
  induction 1 as [|q pre Hq _ IH]; [done |]. simpl.
  destruct (String.eqb_spec (name q) rn) as [Hn | Hn]; [| done].
  destruct (String.eqb_spec (rule_type q) "prefix") as [Hp | Hp].
  { destruct Hq. split; [done | by left]. }
  destruct (String.eqb_spec (rule_type q) "suffix") as [Hs | Hs]; [| done].
  destruct Hq. split; [done | by right].
Qed.

(** C2. With the rules that [__init__] installs, "plural" appends "tachi",
    "past" appends "ta" and "negative" prepends "fu", for every word. *)
Theorem default_rules_apply (w : string) :
  apply_morphology (morphology JapaneseLanguageCreatorUI_init) w "plural"
    = w +:+ "tachi"
  ∧ apply_morphology (morphology JapaneseLanguageCreatorUI_init) w "past"
    = w +:+ "ta"
  ∧ apply_morphology (morphology JapaneseLanguageCreatorUI_init) w "negative"
    = "fu" +:+ w.
Proof. by split_and!. Qed.

(** C5. A rule name that no rule of the list carries leaves the base word as
    it is; [apply_morphology] has no error result at all. *)
Theorem apply_morphology_unmatched (m : MorphologySystem)
    (base_word rule_name : string) :
  (∀ q, q ∈ rules m → name q ≠ rule_name) →
  apply_morphology m base_word rule_name = base_word.
Proof.
  intros Hno. unfold apply_morphology.
  rewrite <- (app_nil_r (rules m)). rewrite apply_rules_skip; [done |].
  apply Forall_forall. intros q Hq [Hname _]. by apply (Hno q).
Qed.

Lemma apply_morphology_unmatched_witness :
  (∀ q, q ∈ rules (morphology JapaneseLanguageCreatorUI_init)
        → name q ≠ "unknown_rule")
  ∧ apply_morphology (morphology JapaneseLanguageCreatorUI_init)
      "neko" "unknown_rule" = "neko".
Proof.
  assert (Hno : ∀ q, q ∈ rules (morphology JapaneseLanguageCreatorUI_init)
                     → name q ≠ "unknown_rule").
  { apply Forall_forall. by repeat constructor. }
  split; [exact Hno |].
  exact (apply_morphology_unmatched (morphology JapaneseLanguageCreatorUI_init)
           "neko" "unknown_rule" Hno).
Defined.

(** C8. For a rule list built by [add_rule], duplicates allowed, whose first
    rule named [rule_name] has one of the two declared kinds,
    [apply_morphology] uses that rule: the marker goes before the base word
    for a prefix and after it for a suffix, and the rules that follow it,
    also those of the same name, do not influence the result. *)
Theorem apply_morphology_first_match (pre : list MorphologyRule)
    (q : MorphologyRule) (post : list MorphologyRule)
    (base_word rule_name : string) :
  Forall (λ q', name q' ≠ rule_name) pre →
  name q = rule_name →
  is_affix q →
  (rule_type q = "prefix" →
   apply_morphology (build_rules (pre ++ q :: post)) base_word rule_name
   = marker q +:+ base_word)
  ∧ (rule_type q = "suffix" →
     apply_morphology (build_rules (pre ++ q :: post)) base_word rule_name
     = base_word +:+ marker q)
  ∧ (∀ post',
       apply_morphology (build_rules (pre ++ q :: post')) base_word rule_name
       = apply_morphology (build_rules (pre ++ q :: post)) base_word rule_name).
Proof.
  intros Hpre Hname Hkind.
  assert (Forall (λ q', ¬ (name q' = rule_name ∧ is_affix q')) pre) as Hskip.
  { eapply Forall_impl; [exact Hpre |]. intros q' Hq' [Hn _]. by apply Hq'. }
  assert (∀ rest,
            apply_morphology (build_rules (pre ++ q :: rest)) base_word rule_name
            = if String.eqb (rule_type q) "prefix" then marker q +:+ base_word
              else base_word +:+ marker q) as Hres.
  { intros rest. unfold apply_morphology.
    rewrite rules_build_rules, apply_rules_skip by done. simpl.
    rewrite (proj2 (String.eqb_eq _ _) Hname).
    destruct Hkind as [-> | ->]; reflexivity. }
  split_and!.
  - intros Hk. by rewrite Hres, Hk.
  - intros Hk. by rewrite Hres, Hk.
  - intros post'. by rewrite !Hres.
Qed.

Lemma apply_morphology_first_match_witness :
  Forall (λ q', name q' ≠ "plural")
    [Build_MorphologyRule "past" "suffix" "ta" ""]
  ∧ name (Build_MorphologyRule "plural" "suffix" "tachi" "") = "plural"
  ∧ is_affix (Build_MorphologyRule "plural" "suffix" "tachi" "")
  ∧ (rule_type (Build_MorphologyRule "plural" "suffix" "tachi" "") = "prefix" →
     apply_morphology
       (build_rules ([Build_MorphologyRule "past" "suffix" "ta" ""]
                     ++ Build_MorphologyRule "plural" "suffix" "tachi" ""
                     :: [Build_MorphologyRule "plural" "prefix" "o" ""]))
       "neko" "plural"
     = marker (Build_MorphologyRule "plural" "suffix" "tachi" "") +:+ "neko")
  ∧ (rule_type (Build_MorphologyRule "plural" "suffix" "tachi" "") = "suffix" →
     apply_morphology
       (build_rules ([Build_MorphologyRule "past" "suffix" "ta" ""]
                     ++ Build_MorphologyRule "plural" "suffix" "tachi" ""
                     :: [Build_MorphologyRule "plural" "prefix" "o" ""]))
       "neko" "plural"
     = "neko" +:+ marker (Build_MorphologyRule "plural" "suffix" "tachi" ""))
  ∧ (∀ post',
       apply_morphology
         (build_rules ([Build_MorphologyRule "past" "suffix" "ta" ""]
                       ++ Build_MorphologyRule "plural" "suffix" "tachi" ""
                       :: post'))
         "neko" "plural"
       = apply_morphology
           (build_rules ([Build_MorphologyRule "past" "suffix" "ta" ""]
                         ++ Build_MorphologyRule "plural" "suffix" "tachi" ""
                         :: [Build_MorphologyRule "plural" "prefix" "o" ""]))
           "neko" "plural").
Proof.
  assert (Hpre : Forall (λ q', name q' ≠ "plural")
                   [Build_MorphologyRule "past" "suffix" "ta" ""]).
  { repeat constructor. discriminate. }
  assert (Hkind : is_affix (Build_MorphologyRule "plural" "suffix" "tachi" "")).
  { right. reflexivity. }
  split; [exact Hpre |]. split; [reflexivity |]. split; [exact Hkind |].
  exact (apply_morphology_first_match
           [Build_MorphologyRule "past" "suffix" "ta" ""]
           (Build_MorphologyRule "plural" "suffix" "tachi" "")
           [Build_MorphologyRule "plural" "prefix" "o" ""]
           "neko" "plural" Hpre eq_refl Hkind).
Defined.

(** ** SyntaxSystem *)

Lemma total_dict_getitem {V} (d : dict V) (k : string) (v : V) :
  dict_get d k = Some v → total (dict_getitem d k) (λ x, x = v).
Proof. intros Hget. unfold dict_getitem. rewrite Hget. by apply total_ret. Qed.

Lemma particle_list_get (s : SyntaxSystem) (role : string) :
  list_bool (particle_list s role) = true →
  dict_get (particles s) role = Some (particle_list s role)
  ∧ particle_list s role ≠ [].
Proof.
  unfold particle_list. destruct (dict_get (particles s) role) as [ps|]; [| done].
  simpl. by intros ?%list_bool_true.
Qed.

Lemma total_particle {B} (s : SyntaxSystem) (role : string)
    (k : string → Gen B) (Q : B → Prop) :
  list_bool (particle_list s role) = true →
  (∀ p, p ∈ particle_list s role → total (k p) Q) →
  total (let* ps := dict_getitem (particles s) role in
         let* p := random_choice ps in k p) Q.
Proof.
  intros [Hget Hne]%particle_list_get Hk.
  eapply total_bind; [by apply total_dict_getitem |].
  intros ps ->. eapply total_bind; [by apply total_choice | done].
Qed.

Lemma total_particle_then {B C} (s : SyntaxSystem) (role : string)
    (k : string → Gen B) (h : B → Gen C) (Q : C → Prop) :
  list_bool (particle_list s role) = true →
  (∀ p, p ∈ particle_list s role → total (gbind (k p) h) Q) →
  total (gbind (let* ps := dict_getitem (particles s) role in
                let* p := random_choice ps in k p) h) Q.
Proof.
  intros [Hget Hne]%particle_list_get Hk r.
  destruct (total_choice _ Hne r) as (p & r1 & Hp & Hin).
  destruct (Hk p Hin r1) as (c & r2 & Hc & HQ).
  exists c, r2. split; [| done].
  unfold gbind, dict_getitem in *. rewrite Hget. simpl.
  by rewrite Hp.
Qed.

Lemma total_generate_sentence (s : SyntaxSystem) (subject verb obj : string)
    (add_adverb : bool) (adverb : string) :
  syntax_ok s = true →
  total (generate_sentence s subject verb obj add_adverb adverb)
    (λ sentence, ∃ sp op dp,
       sp ∈ particle_list s "subject" ∧ op ∈ particle_list s "object"
       ∧ dp ∈ particle_list s "direction"
       ∧ sentence =
           String.concat " "
             (sentence_phrases subject verb obj add_adverb adverb sp op dp
              ++ [verb]) +:+ ".").
Proof.
  unfold syntax_ok. rewrite !andb_true_iff. intros [[Hs Ho] Hd].
  assert (∃ op0, op0 ∈ particle_list s "object") as [op0 Hop0].
  { destruct (particle_list s "object") as [|x ?]; [done |].
    exists x. by left. }
  assert (∃ dp0, dp0 ∈ particle_list s "direction") as [dp0 Hdp0].
  { destruct (particle_list s "direction") as [|x ?]; [done |].
    exists x. by left. }
  unfold generate_sentence, sentence_phrases.
  apply total_particle; [done |]. intros sp Hsp.
  destruct obj as [|oc obj']; simpl str_bool; cbv iota.
  - apply total_bind_ret.
    destruct add_adverb; [destruct adverb as [|ac adverb'] |]; simpl.
    + apply total_bind_ret. apply total_ret. by exists sp, op0, dp0.
    + apply total_particle_then; [done |]. intros dp Hdp.
      apply total_bind_ret, total_ret. by exists sp, op0, dp.
    + apply total_bind_ret, total_ret. exists sp, op0, dp0.
      split_and!; try done; by destruct adverb.
  - apply total_particle_then; [done |]. intros op Hop. apply total_bind_ret.
    destruct add_adverb; [destruct adverb as [|ac adverb'] |]; simpl.
    + apply total_bind_ret, total_ret. by exists sp, op, dp0.
    + apply total_particle_then; [done |]. intros dp Hdp.
      apply total_bind_ret, total_ret. by exists sp, op, dp.
    + apply total_bind_ret, total_ret. exists sp, op, dp0.
      split_and!; try done; by destruct adverb.
Qed.

Lemma concat_cons (sep x : string) (xs : list string) :
  xs ≠ [] → String.concat sep (x :: xs) = x +:+ sep +:+ String.concat sep xs.
Proof. by destruct xs. Qed.

(** C1. Whatever optional parts are present, the sentence is the list of
    phrases before the verb (the subject phrase, then the object phrase and
    the adverb phrase when present, each a word with its particle) followed
    by the verb, joined by single spaces, and closed by a period: the verb
    is the last element of the joined list and the period comes right after
    it. *)
Theorem generate_sentence_verb_last (s : SyntaxSystem)
    (subject verb obj : string) (add_adverb : bool) (adverb : string)
    (r : Rng) :
  syntax_ok s = true →
  ∃ sp op dp r',
    sp ∈ particle_list s "subject" ∧ op ∈ particle_list s "object"
    ∧ dp ∈ particle_list s "direction"
    ∧ generate_sentence s subject verb obj add_adverb adverb r
      = Ok (String.concat " "
              (sentence_phrases subject verb obj add_adverb adverb sp op dp
               ++ [verb]) +:+ ".", r')
    ∧ String.concat " "
        (sentence_phrases subject verb obj add_adverb adverb sp op dp
         ++ [verb]) +:+ "."
      = String.concat " "
          (sentence_phrases subject verb obj add_adverb adverb sp op dp)
        +:+ " " +:+ verb +:+ ".".
Proof.
  intros Hok.
  destruct (total_generate_sentence s subject verb obj add_adverb adverb Hok r)
    as (sentence & r' & Hrun & sp & op & dp & Hsp & Hop & Hdp & ->).
  exists sp, op, dp, r'.
  assert (sentence_phrases subject verb obj add_adverb adverb sp op dp ≠ [])
    as Hne by done.
  split_and!; [done | done | done | exact Hrun |].
  rewrite concat_snoc by done. by rewrite !string_app_assoc.
Qed.

Lemma generate_sentence_verb_last_witness :
  syntax_ok SyntaxSystem_default = true
  ∧ ∃ sp op dp r',
      sp ∈ particle_list SyntaxSystem_default "subject"
      ∧ op ∈ particle_list SyntaxSystem_default "object"
      ∧ dp ∈ particle_list SyntaxSystem_default "direction"
      ∧ generate_sentence SyntaxSystem_default "neko" "miru" "sakana" true
          "umi" (λ n, n)
        = Ok (String.concat " "
                (sentence_phrases "neko" "miru" "sakana" true "umi" sp op dp
                 ++ ["miru"]) +:+ ".", r')
      ∧ String.concat " "
          (sentence_phrases "neko" "miru" "sakana" true "umi" sp op dp
           ++ ["miru"]) +:+ "."
        = String.concat " "
            (sentence_phrases "neko" "miru" "sakana" true "umi" sp op dp)
          +:+ " " +:+ "miru" +:+ ".".
Proof.
  split; [reflexivity |].
  apply (generate_sentence_verb_last SyntaxSystem_default
           "neko" "miru" "sakana" true "umi" (λ n, n)).
  reflexivity.
Defined.

(** C10. The subject phrase is always emitted, the object phrase exactly when
    [obj] is not the empty string, the adverb phrase exactly when
    [add_adverb] holds and [adverb] is not the empty string; with an empty
    subject the sentence starts with the bare subject particle. *)
Theorem generate_sentence_optional_parts (s : SyntaxSystem)
    (subject verb obj : string) (add_adverb : bool) (adverb : string)
    (r : Rng) :
  syntax_ok s = true →
  ∃ sp op dp sentence r',
    sp ∈ particle_list s "subject" ∧ op ∈ particle_list s "object"
    ∧ dp ∈ particle_list s "direction"
    ∧ generate_sentence s subject verb obj add_adverb adverb r
      = Ok (sentence, r')
    ∧ sentence =
        String.concat " "
          ([subject +:+ sp]
           ++ (if decide (obj = "") then [] else [obj +:+ op])
           ++ (if decide (add_adverb = true ∧ adverb ≠ "")
               then [adverb +:+ dp] else [])
           ++ [verb]) +:+ "."
    ∧ (subject = "" → ∃ rest, sentence = sp +:+ " " +:+ rest).
Proof.
  intros Hok.
  destruct (total_generate_sentence s subject verb obj add_adverb adverb Hok r)
    as (sentence & r' & Hrun & sp & op & dp & Hsp & Hop & Hdp & ->).
  eexists sp, op, dp, _, r'. split_and!; [done | done | done | exact Hrun | |].
  - unfold sentence_phrases. by rewrite <- !app_assoc.
  - intros ->. unfold sentence_phrases. rewrite <- app_assoc.
    change (["" +:+ sp] ++ ?l) with (sp :: l).
    rewrite concat_cons, !string_app_assoc; [by eexists |].
    intros Hnil. apply (f_equal length) in Hnil.
    rewrite !length_app in Hnil. simpl in Hnil. lia.
Qed.

Lemma generate_sentence_optional_parts_witness :
  syntax_ok SyntaxSystem_default = true
  ∧ ∃ sp op dp sentence r',
      sp ∈ particle_list SyntaxSystem_default "subject"
      ∧ op ∈ particle_list SyntaxSystem_default "object"
      ∧ dp ∈ particle_list SyntaxSystem_default "direction"
      ∧ generate_sentence SyntaxSystem_default "" "miru" "sakana" true "" (λ n, n)
        = Ok (sentence, r')
      ∧ sentence =
          String.concat " "
            (["" +:+ sp]
             ++ (if decide ("sakana" = "") then [] else ["sakana" +:+ op])
             ++ (if decide (true = true ∧ "" ≠ "") then ["" +:+ dp] else [])
             ++ ["miru"]) +:+ "."
      ∧ ("" = "" → ∃ rest, sentence = sp +:+ " " +:+ rest).
Proof.
  split; [reflexivity |].
  apply (generate_sentence_optional_parts SyntaxSystem_default
           "" "miru" "sakana" true "" (λ n, n)).
  reflexivity.
Defined.

(** ** The vocabulary store *)

Lemma dict_get_set {V} (d : dict V) (k k' : string) (v : V) :
  dict_get (dict_set d k v) k'
  = if String.eqb k k' then Some v else dict_get d k'.
Proof.
  induction d as [|[k0 v0] d IH]; simpl.
  - done.
  - destruct (String.eqb_spec k0 k) as [-> | Hk0]; simpl.
    + by destruct (String.eqb k k').
    + rewrite IH. destruct (String.eqb_spec k0 k') as [-> | Hk0']; [| done].
      by rewrite (proj2 (String.eqb_neq k k')).
Qed.

Lemma words_of_set (d : dict (list string)) (k k' : string) (v : list string) :
  words_of (dict_set d k v) k' = if String.eqb k k' then v else words_of d k'.
Proof.
  unfold words_of. rewrite dict_get_set. by destruct (String.eqb k k').
Qed.

Lemma defaultdict_getitem_spec (d : dict (list string)) (k : string) :
  ∃ d', defaultdict_getitem d k = (words_of d k, d')
        ∧ ∀ k', words_of d' k' = words_of d k'.
Proof.
  unfold defaultdict_getitem, words_of.
  destruct (dict_get d k) as [v|] eqn:Hget; simpl.
  - by exists d.
  - exists (dict_set d k []). split; [done |]. intros k'.
    rewrite dict_get_set. destruct (String.eqb_spec k k') as [<- | Hk]; [| done].
    by rewrite Hget.
Qed.

Lemma words_of_append (d : dict (list string)) (k k' x : string) :
  words_of (defaultdict_append d k x) k'
  = if String.eqb k k' then words_of d k ++ [x] else words_of d k'.
Proof.
  unfold defaultdict_append.
  destruct (defaultdict_getitem_spec d k) as (d' & -> & Hd').
  rewrite words_of_set. by destruct (String.eqb k k').
Qed.

Lemma same_store_refl a : same_store a a.
Proof. by split_and!. Qed.

Lemma same_store_trans a b c : same_store a b → same_store b c → same_store a c.
Proof.
  intros (Hp & Hs & Hw) (Hp' & Hs' & Hw'). split_and!; [congruence.. |].
  intros k. by rewrite Hw', Hw.
Qed.

Lemma same_store_grows a b : same_store a b → grows a b.
Proof.
  intros (Hp & Hs & Hw). split_and!; [done.. |]. intros k. by rewrite Hw.
Qed.

Lemma grows_trans a b c : grows a b → grows b c → grows a c.
Proof.
  intros (Hp & Hs & Hw) (Hp' & Hs' & Hw'). split_and!; [congruence.. |].
  intros k. exact (transitivity (Hw k) (Hw' k)).
Qed.

Lemma same_store_append_output a text : same_store a (append_output a text).
Proof. by split_and!. Qed.

Lemma vocabulary_getitem_spec a k :
  ∃ b, vocabulary_getitem a k = (words_of (vocabulary a) k, b) ∧ same_store a b.
Proof.
  unfold vocabulary_getitem.
  destruct (defaultdict_getitem_spec (vocabulary a) k) as (d' & -> & Hd').
  eexists. split; [reflexivity |]. by split_and!.
Qed.

Lemma vocabulary_append_spec a k w :
  phonology (vocabulary_append a k w) = phonology a
  ∧ syntax (vocabulary_append a k w) = syntax a
  ∧ words_of (vocabulary (vocabulary_append a k w)) k
    = words_of (vocabulary a) k ++ [w]
  ∧ ∀ k', k' ≠ k → words_of (vocabulary (vocabulary_append a k w)) k'
                   = words_of (vocabulary a) k'.
Proof.
  split_and!; [done | done | |]; simpl.
  - by rewrite words_of_append, String.eqb_refl.
  - intros k' Hk. rewrite words_of_append.
    by rewrite (proj2 (String.eqb_neq k k')).
Qed.

Lemma grows_vocabulary_append a k w : grows a (vocabulary_append a k w).
Proof.
  destruct (vocabulary_append_spec a k w) as (Hp & Hs & Hk & Hother).
  split_and!; [done.. |]. intros k'.
  destruct (decide (k' = k)) as [-> | Hne].
  - rewrite Hk. by apply prefix_app_r.
  - by rewrite Hother.
Qed.

Lemma ui_ok_inv a :
  ui_ok a = true → choices_ok (phonology a) = true ∧ syntax_ok (syntax a) = true.
Proof. unfold ui_ok. by rewrite andb_true_iff. Qed.

Lemma seeded_grows k n a b : seeded k n a b → grows a b.
Proof.
  intros (Hp & Hs & Hother & Hempty & Hfull). split_and!; [done.. |].
  intros k'. destruct (decide (k' = k)) as [-> | Hne].
  - destruct (words_of (vocabulary a) k) as [|w ws] eqn:Hk.
    + apply prefix_nil.
    + by rewrite Hfull.
  - by rewrite Hother.
Qed.

Lemma seeded_nonempty k n a b :
  seeded k n a b → (0 < n)%nat → words_of (vocabulary b) k ≠ [].
Proof.
  intros (_ & _ & _ & Hempty & Hfull) Hn Hnil.
  destruct (words_of (vocabulary a) k) as [|w ws] eqn:Hk.
  - rewrite Hnil in Hempty. specialize (Hempty eq_refl). simpl in Hempty. lia.
  - rewrite Hfull in Hnil; done.
Qed.

Lemma total_seed_class a a1 k wt count :
  choices_ok (phonology a) = true → same_store a a1 →
  total
    (if negb (list_bool (words_of (vocabulary a) k)) then
       for_each (range count)
         (λ self _,
            let* w := generate_word (phonology self) (Some 2) wt in
            gret (vocabulary_append self k w))
         a1
     else gret a1)
    (seeded k (Z.to_nat count) a).
Proof.
  intros Hok (Hp & Hs & Hw).
  destruct (words_of (vocabulary a) k) as [|w0 ws] eqn:Hk; simpl.
  - eapply total_mono.
    { apply (total_for_each_indexed _ _
               (λ n b, phonology b = phonology a ∧ syntax b = syntax a
                       ∧ (∀ k', k' ≠ k → words_of (vocabulary b) k'
                                         = words_of (vocabulary a) k')
                       ∧ length (words_of (vocabulary b) k) = n)).
      - split_and!; try done. by rewrite Hw, Hk.
      - intros n b _ (Hbp & Hbs & Hbo & Hbn).
        eapply total_bind; [apply total_generate_word; by rewrite Hbp |].
        intros w _. apply total_ret.
        destruct (vocabulary_append_spec b k w) as (Hp' & Hs' & Hk' & Ho').
        split_and!; [congruence | congruence | |].
        + intros k' Hne. by rewrite Ho', Hbo.
        + rewrite Hk', length_app. simpl. lia. }
    rewrite range_length. intros b (Hbp & Hbs & Hbo & Hbn).
    by split_and!.
  - apply total_ret. split_and!; [done | done | | |].
    + intros k' _. apply Hw.
    + by rewrite Hk.
    + intros _. by rewrite Hw, Hk.
Qed.

Lemma total_seed_vocabulary a :
  ui_ok a = true →
  total (seed_vocabulary a)
    (λ c, ∃ b, seeded "noun" 3 a b ∧ seeded "verb" 2 b c).
Proof.
  intros [Hok _]%ui_ok_inv. unfold seed_vocabulary.
  destruct (vocabulary_getitem_spec a "noun") as (a1 & -> & Ha1).
  eapply total_bind; [by apply (total_seed_class a a1 "noun" "noun" 3) |].
  intros b Hb.
  destruct (vocabulary_getitem_spec b "verb") as (b1 & -> & Hb1).
  eapply total_mono.
  { apply (total_seed_class b b1 "verb" "verb" 2); [| done].
    destruct Hb as (-> & _). done. }
  intros c Hc. by exists b.
Qed.

Lemma total_sentence_step a i :
  ui_ok a = true →
  words_of (vocabulary a) "noun" ≠ [] → words_of (vocabulary a) "verb" ≠ [] →
  total (sentence_step a i) (same_store a).
Proof.
  intros [Hok Hsyn]%ui_ok_inv Hnoun Hverb. unfold sentence_step.
  eapply total_bind; [by apply total_choice |]. intros pattern _.
  destruct (vocabulary_getitem_spec a "noun") as (a1 & -> & Ha1).
  eapply total_bind; [by apply total_choice |]. intros subject _.
  destruct (vocabulary_getitem_spec a1 "verb") as (a2 & -> & Ha2).
  pose proof (same_store_trans _ _ _ Ha1 Ha2) as Ha12.
  eapply total_bind.
  { apply total_choice. destruct Ha1 as (_ & _ & ->). done. }
  intros verb _.
  eapply (total_bind _ _ (λ os, same_store a os.2)).
  { destruct (str_in "O" pattern).
    - destruct (vocabulary_getitem_spec a2 "noun") as (a3 & -> & Ha3).
      eapply total_bind.
      { apply total_choice. destruct Ha12 as (_ & _ & ->). done. }
      intros o _. apply total_ret. simpl. by eapply same_store_trans.
    - by apply total_ret. }
  intros [obj a3] Ha3. simpl in Ha3.
  destruct Ha3 as (Hp3 & Hs3 & Hw3).
  eapply (total_bind _ _ (λ _, True)).
  { destruct (str_in "Adv" pattern); [| by apply total_ret].
    apply total_generate_word. by rewrite Hp3. }
  intros adverb _.
  eapply total_bind; [apply total_generate_sentence; by rewrite Hs3 |].
  intros sentence _. apply total_ret.
  eapply same_store_trans; [| apply same_store_append_output]. by split_and!.
Qed.

Lemma total_generate_sentences a count :
  ui_ok a = true → total (generate_sentences a count) (grows a).
Proof.
  intros Hok. unfold generate_sentences.
  set (a1 := append_output (append_output a _) _).
  assert (same_store a a1) as Ha1 by done.
  assert (ui_ok a1 = true) as Hok1 by done.
  eapply total_bind; [by apply total_seed_vocabulary |].
  intros c (b & Hb & Hc).
  pose proof (seeded_nonempty _ _ _ _ Hc ltac:(lia)) as Hverb.
  assert (words_of (vocabulary c) "noun" ≠ []) as Hnoun.
  { destruct Hc as (_ & _ & Hother & _). rewrite Hother by done.
    apply (seeded_nonempty _ _ _ _ Hb). lia. }
  assert (grows a c) as Hac.
  { eapply grows_trans; [by apply same_store_grows |].
    eapply grows_trans; by eapply seeded_grows. }
  eapply total_mono.
  { apply (total_for_each _ _ (same_store c)); [apply same_store_refl |].
    intros s i (Hp & Hs & Hw).
    eapply total_mono.
    - apply total_sentence_step.
      + unfold ui_ok. rewrite Hp, Hs. destruct Hac as (-> & -> & _). done.
      + by rewrite Hw.
      + by rewrite Hw.
    - intros s' Hs'. eapply same_store_trans; [| done]. by split_and!. }
  intros d Hd. eapply grows_trans; [done | by apply same_store_grows].
Qed.

Lemma total_generate_vocabulary a :
  ui_ok a = true → total (generate_vocabulary a) (grows a).
Proof.
  intros [Hok _]%ui_ok_inv. unfold generate_vocabulary.
  set (a1 := append_output (append_output a _) _).
  assert (grows a a1) as Ha1 by (by apply same_store_grows).
  eapply total_bind.
  { apply (total_for_each _ _ (grows a)); [done |].
    intros s [i [word_type chinese]] Hs.
    eapply total_bind; [by apply (total_randint 2 3) |]. intros n _.
    eapply total_bind.
    { apply total_generate_word. destruct Hs as (-> & _). done. }
    intros word _. apply total_ret.
    eapply grows_trans; [done |].
    eapply grows_trans; [apply grows_vocabulary_append |].
    apply same_store_grows, same_store_append_output. }
  intros b Hb. apply total_ret.
  eapply grows_trans; [done |].
  apply same_store_grows, same_store_append_output.
Qed.

Lemma total_show_morphology a : total (show_morphology a) (same_store a).
Proof.
  unfold show_morphology.
  set (a1 := append_output (append_output a _) _).
  assert (same_store a a1) as Ha1 by done.
  destruct (vocabulary_getitem_spec a1 "noun") as (a2 & -> & Ha2).
  pose proof (same_store_trans _ _ _ Ha1 Ha2) as Ha12.
  eapply (total_bind _ _ (same_store a)).
  { destruct (words_of (vocabulary a1) "noun") as [|w ws] eqn:Hnoun; simpl.
    - by apply total_ret.
    - destruct (vocabulary_getitem_spec a2 "noun") as (a3 & -> & Ha3).
      eapply total_bind.
      { apply total_choice. destruct Ha2 as (_ & _ & ->). by rewrite Hnoun. }
      intros noun _. apply total_ret.
      eapply same_store_trans; [| apply same_store_append_output].
      by eapply same_store_trans. }
  intros b Hb.
  destruct (vocabulary_getitem_spec b "verb") as (b1 & -> & Hb1).
  pose proof (same_store_trans _ _ _ Hb Hb1) as Hab1.
  eapply (total_bind _ _ (same_store a)).
  { destruct (words_of (vocabulary b) "verb") as [|w ws] eqn:Hverb; simpl.
    - by apply total_ret.
    - destruct (vocabulary_getitem_spec b1 "verb") as (b2 & -> & Hb2).
      eapply total_bind.
      { apply total_choice. destruct Hb1 as (_ & _ & ->). by rewrite Hverb. }
      intros verb _. apply total_ret.
      eapply same_store_trans; [| apply same_store_append_output].
      by eapply same_store_trans. }
  intros c Hc.
  destruct (dict_get (vocabulary c) "adjective") as [[|w ws]|] eqn:Hadj;
    [by apply total_ret | | by apply total_ret].
  destruct (vocabulary_getitem_spec c "adjective") as (c1 & -> & Hc1).
  eapply total_bind.
  { apply total_choice. unfold words_of. by rewrite Hadj. }
  intros adj _. apply total_ret.
  eapply same_store_trans; [| apply same_store_append_output].
  by eapply same_store_trans.
Qed.

Lemma same_store_foldl {X} (f : JapaneseLanguageCreatorUI → X → JapaneseLanguageCreatorUI)
    (xs : list X) a :
  (∀ s x, same_store s (f s x)) → same_store a (foldl f a xs).
Proof.
  intros Hf. revert a. induction xs as [|x xs IH]; intros a; simpl.
  - apply same_store_refl.
  - eapply same_store_trans; [apply Hf | apply IH].
Qed.

Ltac same_store_chain :=
  repeat first
    [ apply same_store_refl
    | eapply same_store_trans; [| apply same_store_append_output]
    | eapply same_store_trans;
      [| apply same_store_foldl; intros ? ?;
         first [ apply same_store_append_output
               | case_match; case_match;
                 [apply same_store_append_output | apply same_store_refl] ] ] ].

Lemma total_final_showcase a :
  ui_ok a = true → total (final_showcase a) (grows a).
Proof.
  intros Hok. unfold final_showcase. cbv zeta.
  match goal with
  | |- total (gbind (generate_sentences ?s _) _) _ =>
      assert (same_store a s) as Hs by same_store_chain;
      generalize dependent s
  end.
  intros s (Hp & Hsy & Hw).
  eapply total_bind.
  { apply total_generate_sentences. unfold ui_ok. by rewrite Hp, Hsy. }
  intros b Hb. apply total_ret.
  eapply grows_trans; [apply same_store_grows; by split_and! |].
  eapply grows_trans; [done |].
  apply same_store_grows, same_store_append_output.
Qed.

(** C4. From a store with no noun and no verb, [generate_sentences(1)] first
    stores three nouns and two verbs, and its single round of sampling then
    runs on that store and returns: no [random.choice] meets an empty list. *)
Theorem generate_sentences_seeds_first (self : JapaneseLanguageCreatorUI)
    (r : Rng) :
  ui_ok self = true →
  words_of (vocabulary self) "noun" = [] →
  words_of (vocabulary self) "verb" = [] →
  ∃ shown store r1 final r',
    same_store self shown
    ∧ seed_vocabulary shown r = Ok (store, r1)
    ∧ length (words_of (vocabulary store) "noun") = 3%nat
    ∧ length (words_of (vocabulary store) "verb") = 2%nat
    ∧ sentence_step store 0 r1 = Ok (final, r')
    ∧ generate_sentences self 1 r = Ok (final, r')
    ∧ same_store store final.
Proof.
  intros Hok Hnoun Hverb. unfold generate_sentences.
  set (shown := append_output (append_output self _) _).
  assert (same_store self shown) as Hshown by done.
  assert (ui_ok shown = true) as Hok' by done.
  destruct (total_seed_vocabulary shown Hok' r)
    as (store & r1 & Hseed & b & Hb & Hstore).
  assert (length (words_of (vocabulary store) "noun") = 3%nat) as Hn.
  { destruct Hstore as (_ & _ & Hother & _). rewrite Hother by done.
    destruct Hb as (_ & _ & _ & Hempty & _). by apply Hempty. }
  assert (length (words_of (vocabulary store) "verb") = 2%nat) as Hv.
  { destruct Hstore as (_ & _ & _ & Hempty & _). apply Hempty.
    destruct Hb as (_ & _ & Hother & _). by rewrite Hother. }
  assert (ui_ok store = true) as Hok''.
  { unfold ui_ok. destruct Hstore as (-> & -> & _).
    destruct Hb as (-> & -> & _). done. }
  destruct (total_sentence_step store 0 Hok'') with (r := r1)
    as (final & r' & Hstep & Hfinal).
  { intros Hnil. by rewrite Hnil in Hn. }
  { intros Hnil. by rewrite Hnil in Hv. }
  exists shown, store, r1, final, r'. split_and!; try done.
  unfold gbind. rewrite Hseed. change (range 1) with [0]. simpl.
  unfold gbind. by rewrite Hstep.
Qed.

Lemma generate_sentences_seeds_first_witness :
  ui_ok JapaneseLanguageCreatorUI_init = true
  ∧ words_of (vocabulary JapaneseLanguageCreatorUI_init) "noun" = []
  ∧ words_of (vocabulary JapaneseLanguageCreatorUI_init) "verb" = []
  ∧ ∃ shown store r1 final r',
      same_store JapaneseLanguageCreatorUI_init shown
      ∧ seed_vocabulary shown (λ n, n) = Ok (store, r1)
      ∧ length (words_of (vocabulary store) "noun") = 3%nat
      ∧ length (words_of (vocabulary store) "verb") = 2%nat
      ∧ sentence_step store 0 r1 = Ok (final, r')
      ∧ generate_sentences JapaneseLanguageCreatorUI_init 1 (λ n, n)
        = Ok (final, r')
      ∧ same_store store final.
Proof.
  split; [reflexivity |]. split; [reflexivity |]. split; [reflexivity |].
  apply (generate_sentences_seeds_first JapaneseLanguageCreatorUI_init (λ n, n));
    reflexivity.
Defined.

(** C9. Each of the four generation operations returns, and leaves in every
    word class a list of which the list before the operation is a prefix:
    nothing is removed, reordered or deduplicated. *)
Theorem vocabulary_append_only (self : JapaneseLanguageCreatorUI)
    (count : Z) (r : Rng) :
  ui_ok self = true →
  (∃ self' r', generate_vocabulary self r = Ok (self', r')
     ∧ ∀ k, words_of (vocabulary self) k `prefix_of` words_of (vocabulary self') k)
  ∧ (∃ self' r', generate_sentences self count r = Ok (self', r')
     ∧ ∀ k, words_of (vocabulary self) k `prefix_of` words_of (vocabulary self') k)
  ∧ (∃ self' r', show_morphology self r = Ok (self', r')
     ∧ ∀ k, words_of (vocabulary self) k `prefix_of` words_of (vocabulary self') k)
  ∧ (∃ self' r', final_showcase self r = Ok (self', r')
     ∧ ∀ k, words_of (vocabulary self) k `prefix_of` words_of (vocabulary self') k).
Proof.
  intros Hok. split_and!.
  - destruct (total_generate_vocabulary self Hok r) as (b & r' & Hrun & _ & _ & Hw).
    by exists b, r'.
  - destruct (total_generate_sentences self count Hok r)
      as (b & r' & Hrun & _ & _ & Hw).
    by exists b, r'.
  - destruct (total_show_morphology self r) as (b & r' & Hrun & Hb).
    apply same_store_grows in Hb as (_ & _ & Hw). by exists b, r'.
  - destruct (total_final_showcase self Hok r) as (b & r' & Hrun & _ & _ & Hw).
    by exists b, r'.
Qed.

Lemma vocabulary_append_only_witness :
  ui_ok stocked_ui = true
  ∧ (∃ self' r', generate_vocabulary stocked_ui (λ n, n) = Ok (self', r')
       ∧ ∀ k, words_of (vocabulary stocked_ui) k
              `prefix_of` words_of (vocabulary self') k)
  ∧ (∃ self' r', generate_sentences stocked_ui 5 (λ n, n) = Ok (self', r')
       ∧ ∀ k, words_of (vocabulary stocked_ui) k
              `prefix_of` words_of (vocabulary self') k)
  ∧ (∃ self' r', show_morphology stocked_ui (λ n, n) = Ok (self', r')
       ∧ ∀ k, words_of (vocabulary stocked_ui) k
              `prefix_of` words_of (vocabulary self') k)
  ∧ (∃ self' r', final_showcase stocked_ui (λ n, n) = Ok (self', r')
       ∧ ∀ k, words_of (vocabulary stocked_ui) k
              `prefix_of` words_of (vocabulary self') k).
Proof.
  split; [reflexivity |].
  apply (vocabulary_append_only stocked_ui 5 (λ n, n)).
  reflexivity.
Defined.

(** * Further properties *)

(** ** PhonologySystem: edge cases and word structure *)

Lemma total_and {A} (m : Gen A) (P Q : A → Prop) :
  total m P → total m Q → total m (λ a, P a ∧ Q a).
Proof.
  intros HP HQ r. destruct (HP r) as (a & r1 & Hr & Ha).
  destruct (HQ r) as (a' & r1' & Hr' & Ha').
  rewrite Hr in Hr'. injection Hr' as <- <-. by exists a, r1.
Qed.

Lemma range_nonpos (n : Z) : n ≤ 0 → range n = [].
Proof.
  intros Hn. apply length_zero_iff_nil. rewrite range_length. lia.
Qed.

Lemma range_pos (n : Z) : 1 ≤ n → ∃ x xs, range n = x :: xs.
Proof.
  intros Hn. destruct (range n) as [|x xs] eqn:Hr; [| by eauto].
  apply (f_equal length) in Hr. rewrite range_length in Hr. simpl in Hr. lia.
Qed.

Lemma concat_empty_snoc (xs : list string) (x : string) :
  String.concat "" (xs ++ [x]) = String.concat "" xs +:+ x.
Proof.
  destruct xs as [|y ys]; [done |]. by rewrite concat_snoc.
Qed.

Lemma word_suffixes_nonempty (wt : string) : word_suffixes wt ≠ [].
Proof.
  unfold word_suffixes.
  by destruct (String.eqb wt "verb"), (String.eqb wt "noun").
Qed.

(** The tail of [word_of_count] is one draw from [word_suffixes], except
    that an unrecognized type draws nothing. *)
Lemma total_word_syllables (p : PhonologySystem) (n : Z) (wt : string) :
  choices_ok p = true →
  total (word_of_count p n wt)
    (λ w, ∃ syls sfx,
       w = String.concat "" syls +:+ sfx
       ∧ length syls = Z.to_nat n
       ∧ Forall (syllable_shape p) syls
       ∧ sfx ∈ word_suffixes wt).
Proof.
  intros Hok. unfold word_of_count.
  eapply total_bind.
  { apply (total_for_each_indexed _ _
             (λ k w, ∃ syls, w = String.concat "" syls
                             ∧ length syls = k
                             ∧ Forall (syllable_shape p) syls)).
    - by exists [].
    - intros k w _ (syls & -> & Hlen & Hall).
      eapply total_bind; [by apply total_generate_syllable |].
      intros s Hs. apply total_ret. exists (syls ++ [s]).
      split_and!.
      + by rewrite concat_empty_snoc.
      + rewrite length_app. simpl. lia.
      + apply Forall_app. by split; [| constructor]. }
  rewrite range_length. intros w (syls & -> & Hlen & Hall).
  unfold word_suffixes.
  destruct (String.eqb wt "verb").
  { eapply total_bind; [by apply total_choice |]. intros sfx Hsfx.
    apply total_ret. by exists syls, sfx. }
  destruct (String.eqb wt "noun").
  { eapply total_bind; [by apply total_choice |]. intros sfx Hsfx.
    apply total_ret. by exists syls, sfx. }
  apply total_ret. exists syls, "". rewrite string_app_nil_r.
  split_and!; try done. by left.
Qed.

Lemma generate_word_Some (p : PhonologySystem) (n : Z) (wt : string) (r : Rng) :
  generate_word p (Some n) wt r = word_of_count p n wt r.
Proof. reflexivity. Qed.

Lemma generate_syllable_raises (p : PhonologySystem) (r : Rng) :
  consonants p = [] ∨ vowels p = [] →
  generate_syllable p r = Raise IndexError.
Proof.
  intros Hempty. unfold generate_syllable.
  destruct (consonants p) as [|c cs]; [done |].
  destruct Hempty as [Hc | Hv]; [done |]. by rewrite Hv.
Qed.

Lemma generate_word_raises (p : PhonologySystem) (n : Z) (wt : string)
    (r : Rng) :
  consonants p = [] ∨ vowels p = [] → 1 ≤ n →
  generate_word p (Some n) wt r = Raise IndexError.
Proof.
  intros Hempty Hn. rewrite generate_word_Some. unfold word_of_count.
  destruct (range_pos n Hn) as (x & xs & ->). simpl.
  unfold gbind. by rewrite generate_syllable_raises.
Qed.

(** X1. An empty consonant or vowel collection makes every syllable, and
    every word of at least one syllable, fail with [IndexError]. *)
Theorem generate_syllable_empty_set (p : PhonologySystem) (r : Rng) :
  consonants p = [] ∨ vowels p = [] →
  generate_syllable p r = Raise IndexError
  ∧ ∀ n wt, 1 ≤ n → generate_word p (Some n) wt r = Raise IndexError.
Proof.
  intros Hempty. split; [by apply generate_syllable_raises |].
  intros n wt Hn. by apply generate_word_raises.
Qed.

Lemma generate_syllable_empty_set_witness :
  (consonants {| consonants := ["k"]; vowels := []; n_end := [""] |} = []
   ∨ vowels {| consonants := ["k"]; vowels := []; n_end := [""] |} = [])
  ∧ generate_syllable {| consonants := ["k"]; vowels := []; n_end := [""] |}
      (λ n, n) = Raise IndexError
  ∧ ∀ n wt, 1 ≤ n →
      generate_word {| consonants := ["k"]; vowels := []; n_end := [""] |}
        (Some n) wt (λ n, n) = Raise IndexError.
Proof.
  assert (H : consonants {| consonants := ["k"]; vowels := []; n_end := [""] |} = []
              ∨ vowels {| consonants := ["k"]; vowels := []; n_end := [""] |} = []).
  { right. reflexivity. }
  split; [exact H |].
  exact (generate_syllable_empty_set
           {| consonants := ["k"]; vowels := []; n_end := [""] |} (λ n, n) H).
Defined.

(** X2. A syllable count of zero or less runs no syllable at all: the word
    is just the suffix of its type, or empty for an unrecognized type, and
    the phonology is not consulted (it may even have empty collections). *)
Theorem generate_word_no_syllables (p : PhonologySystem) (n : Z)
    (wt : string) (r : Rng) :
  n ≤ 0 →
  ∃ sfx r', generate_word p (Some n) wt r = Ok (sfx, r')
            ∧ sfx ∈ word_suffixes wt
            ∧ (wt ≠ "verb" → wt ≠ "noun" → sfx = "" ∧ r' = r).
Proof.
  intros Hn. rewrite generate_word_Some. unfold word_of_count, word_suffixes.
  rewrite (range_nonpos n Hn). simpl for_each. unfold gbind at 1, gret at 1.
  destruct (String.eqb_spec wt "verb") as [-> | Hverb].
  { destruct (total_choice verb_suffixes ltac:(done) r) as (sfx & r' & Hrun & Hin).
    exists sfx, r'. unfold gbind. rewrite Hrun. by split_and!. }
  destruct (String.eqb_spec wt "noun") as [-> | Hnoun].
  { destruct (total_choice noun_suffixes ltac:(done) r) as (sfx & r' & Hrun & Hin).
    exists sfx, r'. unfold gbind. rewrite Hrun. by split_and!. }
  exists "", r. split_and!; [done | by left | done].
Qed.

Lemma generate_word_no_syllables_witness :
  -1 ≤ 0
  ∧ ∃ sfx r',
      generate_word {| consonants := []; vowels := []; n_end := [] |}
        (Some (-1)) "noun" (λ n, n) = Ok (sfx, r')
      ∧ sfx ∈ word_suffixes "noun"
      ∧ ("noun" ≠ "verb" → "noun" ≠ "noun" → sfx = "" ∧ r' = (λ n, n)).
Proof.
  split; [lia |].
  apply (generate_word_no_syllables
           {| consonants := []; vowels := []; n_end := [] |} (-1) "noun" (λ n, n)).
  lia.
Defined.

(** X3. A word is exactly as many syllables as the count in force (none for
    a count below zero), each of the shape consonant, vowel, optional nasal
    ending, followed by one suffix of its type; the count in force is the
    [syllable_count] argument when one is supplied, and 2 or 3 when it is
    omitted. *)
Theorem generate_word_syllables (p : PhonologySystem) (sc : option Z)
    (wt : string) (r : Rng) :
  choices_ok p = true →
  ∃ n r1 syls sfx r',
    resolve_count sc r = Ok (n, r1)
    ∧ (∀ m, sc = Some m → n = m)
    ∧ (sc = None → 2 ≤ n ≤ 3)
    ∧ generate_word p sc wt r = Ok (String.concat "" syls +:+ sfx, r')
    ∧ length syls = Z.to_nat n
    ∧ Forall (syllable_shape p) syls
    ∧ sfx ∈ word_suffixes wt.
Proof.
  intros Hok.
  destruct (total_resolve_count sc r) as (n & r1 & Hn & Hsc).
  destruct (total_word_syllables p n wt Hok r1)
    as (w & r' & Hw & syls & sfx & -> & Hlen & Hall & Hsfx).
  exists n, r1, syls, sfx, r'. split_and!; try done.
  - by intros m ->.
  - by intros ->.
  - unfold generate_word, gbind. by rewrite Hn.
Qed.

Lemma generate_word_syllables_witness :
  choices_ok PhonologySystem_default = true
  ∧ ∃ n r1 syls sfx r',
      resolve_count (Some 3) (λ n, n) = Ok (n, r1)
      ∧ (∀ m, Some 3 = Some m → n = m)
      ∧ (Some 3 = None → 2 ≤ n ≤ 3)
      ∧ generate_word PhonologySystem_default (Some 3) "verb" (λ n, n)
        = Ok (String.concat "" syls +:+ sfx, r')
      ∧ length syls = Z.to_nat n
      ∧ Forall (syllable_shape PhonologySystem_default) syls
      ∧ sfx ∈ word_suffixes "verb".
Proof.
  split; [reflexivity |].
  apply (generate_word_syllables PhonologySystem_default (Some 3) "verb" (λ n, n)).
  reflexivity.
Defined.

Lemma concat_empty_cons (x : string) (xs : list string) :
  String.concat "" (x :: xs) = x +:+ String.concat "" xs.
Proof. destruct xs; [by rewrite string_app_nil_r | done]. Qed.

Lemma syllable_shape_unit (p : PhonologySystem) (s : string) :
  unit_tokens p = true → syllable_shape p s →
  (2 ≤ String.length s ≤ 3)%nat.
Proof.
  unfold unit_tokens. rewrite !andb_true_iff, !forallb_forall.
  intros [[Hc Hv] He] (c & v & tail & -> & Hcin & Hvin & Htail).
  apply list_elem_of_In, Hc, Nat.eqb_eq in Hcin.
  apply list_elem_of_In, Hv, Nat.eqb_eq in Hvin.
  rewrite !string_length_app, Hcin, Hvin.
  destruct Htail as [-> | Hin]; [simpl; lia |].
  apply list_elem_of_In, He, Nat.leb_le in Hin. lia.
Qed.

Lemma concat_syllables_length (p : PhonologySystem) (syls : list string) :
  unit_tokens p = true → Forall (syllable_shape p) syls →
  (2 * length syls ≤ String.length (String.concat "" syls) ≤ 3 * length syls)%nat.
Proof.
  intros Hunit. induction 1 as [|s syls Hs _ IH]; [simpl; lia |].
  rewrite concat_empty_cons, string_length_app.
  pose proof (syllable_shape_unit p s Hunit Hs). simpl length. lia.
Qed.

Lemma word_suffixes_length (wt sfx : string) :
  sfx ∈ word_suffixes wt → Z.of_nat (String.length sfx) = suffix_length wt.
Proof.
  unfold word_suffixes, suffix_length.
  destruct (String.eqb wt "verb"); simpl.
  { intros Hin. rewrite (suffix_length_2 sfx); [done |].
    apply elem_of_app. by left. }
  destruct (String.eqb wt "noun"); simpl.
  { intros Hin. rewrite (suffix_length_2 sfx); [done |].
    apply elem_of_app. by right. }
  by intros ->%list_elem_of_singleton.
Qed.

(** X4. With one-character consonants and vowels and nasal endings of at most
    one character, as configured, a word of [n] syllables has between
    [2n] and [3n] characters plus the two of a noun or verb suffix. *)
Theorem generate_word_length_bounds (p : PhonologySystem) (sc : option Z)
    (wt : string) (r : Rng) :
  choices_ok p = true → unit_tokens p = true →
  ∃ n r1 w r',
    resolve_count sc r = Ok (n, r1)
    ∧ generate_word p sc wt r = Ok (w, r')
    ∧ 2 * Z.max 0 n + suffix_length wt ≤ Z.of_nat (String.length w)
      ≤ 3 * Z.max 0 n + suffix_length wt.
Proof.
  intros Hok Hunit.
  destruct (total_resolve_count sc r) as (n & r1 & Hn & _).
  destruct (total_word_syllables p n wt Hok r1)
    as (w & r' & Hw & syls & sfx & -> & Hlen & Hall & Hsfx).
  eexists n, r1, _, r'. split_and!; [done | | |].
  - unfold generate_word, gbind. rewrite Hn. exact Hw.
  - pose proof (concat_syllables_length p syls Hunit Hall).
    rewrite string_length_app, Nat2Z.inj_add, (word_suffixes_length wt sfx Hsfx).
    lia.
  - pose proof (concat_syllables_length p syls Hunit Hall).
    rewrite string_length_app, Nat2Z.inj_add, (word_suffixes_length wt sfx Hsfx).
    lia.
Qed.

Lemma generate_word_length_bounds_witness :
  choices_ok PhonologySystem_default = true
  ∧ unit_tokens PhonologySystem_default = true
  ∧ ∃ n r1 w r',
      resolve_count (Some 2) (λ n, n) = Ok (n, r1)
      ∧ generate_word PhonologySystem_default (Some 2) "noun" (λ n, n)
        = Ok (w, r')
      ∧ 2 * Z.max 0 n + suffix_length "noun" ≤ Z.of_nat (String.length w)
        ≤ 3 * Z.max 0 n + suffix_length "noun".
Proof.
  split; [reflexivity |]. split; [reflexivity |].
  apply (generate_word_length_bounds PhonologySystem_default (Some 2) "noun"
           (λ n, n)); reflexivity.
Defined.

(** ** MorphologySystem: how rules combine *)

Lemma is_affixb_spec (q : MorphologyRule) : is_affixb q = true ↔ is_affix q.
Proof.
  unfold is_affixb, is_affix.
  rewrite orb_true_iff, !String.eqb_eq. tauto.
Qed.

Lemma apply_rules_cons_other (q : MorphologyRule) (rs : list MorphologyRule)
    (base rn : string) :
  ¬ (name q = rn ∧ is_affix q) →
  apply_rules (q :: rs) base rn = apply_rules rs base rn.
Proof. intros Hq. apply (apply_rules_skip [q]). by constructor. Qed.

Lemma apply_rules_cons_prefix (q : MorphologyRule) (rs : list MorphologyRule)
    (base rn : string) :
  name q = rn → rule_type q = "prefix" →
  apply_rules (q :: rs) base rn = marker q +:+ base.
Proof.
  intros Hn Hk. simpl. by rewrite (proj2 (String.eqb_eq _ _) Hn), Hk.
Qed.

Lemma apply_rules_cons_suffix (q : MorphologyRule) (rs : list MorphologyRule)
    (base rn : string) :
  name q = rn → rule_type q = "suffix" →
  apply_rules (q :: rs) base rn = base +:+ marker q.
Proof.
  intros Hn Hk. simpl. by rewrite (proj2 (String.eqb_eq _ _) Hn), Hk.
Qed.

Lemma rule_match_dec (q : MorphologyRule) (rn : string) :
  (name q = rn ∧ is_affix q) ∨ ¬ (name q = rn ∧ is_affix q).
Proof.
  destruct (decide (name q = rn)) as [Hn | Hn]; [| right; tauto].
  destruct (is_affixb q) eqn:Hk.
  - left. split; [done | by apply is_affixb_spec].
  - right. intros [_ Ha%is_affixb_spec]. congruence.
Qed.

(** The result of the scan, case by case. *)
Lemma apply_rules_cases (rs : list MorphologyRule) (base rn : string) :
  (apply_rules rs base rn = base
   ∧ Forall (λ q, ¬ (name q = rn ∧ is_affix q)) rs)
  ∨ (∃ q, q ∈ rs ∧ name q = rn
          ∧ ((rule_type q = "prefix" ∧ apply_rules rs base rn = marker q +:+ base)
             ∨ (rule_type q = "suffix"
                ∧ apply_rules rs base rn = base +:+ marker q))).
Proof.
  induction rs as [|q rs IH]; [left; by split |].
  destruct (rule_match_dec q rn) as [[Hn [Hk | Hk]] | Hq].
  - right. exists q. split_and!; [by left | done |]. left.
    split; [done | by apply apply_rules_cons_prefix].
  - right. exists q. split_and!; [by left | done |]. right.
    split; [done | by apply apply_rules_cons_suffix].
  - rewrite apply_rules_cons_other by done.
    destruct IH as [[Hbase Hall] | (q' & Hin & Hn & Hres)].
    + left. split; [done | by constructor].
    + right. exists q'. split_and!; [by right | done | done].
Qed.

Lemma apply_rules_app_base (rs rest : list MorphologyRule) (base rn : string) :
  apply_rules rest base rn = base →
  apply_rules (rs ++ rest) base rn = apply_rules rs base rn.
Proof.
  intros Hrest. induction rs as [|q rs IH]; [done |]. simpl.
  by rewrite IH.
Qed.

Lemma apply_rules_app_found (rs rest : list MorphologyRule) (base rn : string) :
  (∃ q, q ∈ rs ∧ name q = rn ∧ is_affix q) →
  apply_rules (rs ++ rest) base rn = apply_rules rs base rn.
Proof.
  intros (q0 & Hin & Hn & Hk).
  induction rs as [|q rs IH]; [by apply elem_of_nil in Hin |].
  destruct (rule_match_dec q rn) as [[Hqn [Hqk | Hqk]] | Hq].
  - rewrite <- app_comm_cons.
    by rewrite !apply_rules_cons_prefix.
  - rewrite <- app_comm_cons.
    by rewrite !apply_rules_cons_suffix.
  - rewrite <- app_comm_cons, !apply_rules_cons_other by done.
    apply IH. apply elem_of_cons in Hin as [-> | Hin]; [| done].
    destruct Hq. by split.
Qed.

(** X5. A rule whose kind is neither "prefix" nor "suffix" never has any
    effect: dropping all such rules changes no result. *)
Theorem apply_morphology_ignores_other_kinds (m : MorphologySystem)
    (base_word rule_name : string) :
  apply_morphology {| rules := List.filter is_affixb (rules m) |}
    base_word rule_name
  = apply_morphology m base_word rule_name.
Proof.
  unfold apply_morphology. simpl.
  induction (rules m) as [|q rs IH]; [done |]. simpl List.filter.
  destruct (is_affixb q) eqn:Hk.
  - simpl. rewrite IH. done.
  - rewrite IH. symmetry. apply apply_rules_cons_other.
    intros [_ Ha%is_affixb_spec]. congruence.
Qed.

(** X6. The result is either the base word itself, when no rule of that name
    is a prefix or suffix rule, or the base word with the marker of one rule
    of that name attached in front (prefix) or behind (suffix): the base word
    is never altered or dropped. *)
Theorem apply_morphology_keeps_base (m : MorphologySystem)
    (base_word rule_name : string) :
  (apply_morphology m base_word rule_name = base_word
   ∧ ∀ q, q ∈ rules m → ¬ (name q = rule_name ∧ is_affix q))
  ∨ (∃ q, q ∈ rules m ∧ name q = rule_name
          ∧ ((rule_type q = "prefix"
              ∧ apply_morphology m base_word rule_name = marker q +:+ base_word)
             ∨ (rule_type q = "suffix"
                ∧ apply_morphology m base_word rule_name
                  = base_word +:+ marker q))).
Proof.
  unfold apply_morphology.
  destruct (apply_rules_cases (rules m) base_word rule_name)
    as [[Hbase Hall] | Hfound]; [left | by right].
  split; [done |]. by apply Forall_forall.
Qed.

(** X7. Adding a rule changes nothing for any other rule name, and nothing
    for its own name either when an earlier prefix or suffix rule already
    carries it: a duplicate is shadowed. *)
Theorem add_rule_shadowed (m : MorphologySystem)
    (new_name kind mk mean base_word rule_name : string) :
  rule_name ≠ new_name
  ∨ (∃ q, q ∈ rules m ∧ name q = rule_name ∧ is_affix q) →
  apply_morphology (add_rule m new_name kind mk mean) base_word rule_name
  = apply_morphology m base_word rule_name.
Proof.
  unfold apply_morphology, add_rule. simpl. intros [Hne | Hfound].
  - apply apply_rules_app_base. simpl.
    by rewrite (proj2 (String.eqb_neq new_name rule_name)).
  - by apply apply_rules_app_found.
Qed.

Lemma add_rule_shadowed_witness :
  ("plural" ≠ "plural"
   ∨ (∃ q, q ∈ rules (morphology JapaneseLanguageCreatorUI_init)
           ∧ name q = "plural" ∧ is_affix q))
  ∧ apply_morphology
      (add_rule (morphology JapaneseLanguageCreatorUI_init)
         "plural" "prefix" "o" "") "neko" "plural"
    = apply_morphology (morphology JapaneseLanguageCreatorUI_init)
        "neko" "plural".
Proof.
  assert (H : "plural" ≠ "plural"
              ∨ (∃ q, q ∈ rules (morphology JapaneseLanguageCreatorUI_init)
                      ∧ name q = "plural" ∧ is_affix q)).
  { right. exists (Build_MorphologyRule "plural" "suffix" "tachi" "複數").
    split_and!; [by left | reflexivity | by right]. }
  split; [exact H |].
  exact (add_rule_shadowed (morphology JapaneseLanguageCreatorUI_init)
           "plural" "prefix" "o" "" "neko" "plural" H).
Defined.

(** X8. When no prefix or suffix rule carries a name yet, the rule added
    under that name is the one applied: its marker goes in front for kind
    "prefix", behind for kind "suffix", and for any other kind the base word
    comes back unchanged. *)
Theorem add_rule_fresh (m : MorphologySystem)
    (new_name kind mk mean base_word : string) :
  (∀ q, q ∈ rules m → ¬ (name q = new_name ∧ is_affix q)) →
  apply_morphology (add_rule m new_name kind mk mean) base_word new_name
  = if String.eqb kind "prefix" then mk +:+ base_word
    else if String.eqb kind "suffix" then base_word +:+ mk
    else base_word.
Proof.
  intros Hfresh. unfold apply_morphology, add_rule. simpl.
  rewrite apply_rules_skip by (by apply Forall_forall).
  simpl. by rewrite String.eqb_refl.
Qed.

Lemma add_rule_fresh_witness :
  (∀ q, q ∈ rules (morphology JapaneseLanguageCreatorUI_init)
        → ¬ (name q = "polite" ∧ is_affix q))
  ∧ apply_morphology
      (add_rule (morphology JapaneseLanguageCreatorUI_init)
         "polite" "suffix" "masu" "") "tabe" "polite"
    = if String.eqb "suffix" "prefix" then "masu" +:+ "tabe"
      else if String.eqb "suffix" "suffix" then "tabe" +:+ "masu"
      else "tabe".
Proof.
  assert (H : ∀ q, q ∈ rules (morphology JapaneseLanguageCreatorUI_init)
                   → ¬ (name q = "polite" ∧ is_affix q)).
  { apply Forall_forall. repeat constructor; by intros [? _]. }
  split; [exact H |].
  exact (add_rule_fresh (morphology JapaneseLanguageCreatorUI_init)
           "polite" "suffix" "masu" "" "tabe" H).
Defined.

(** ** SyntaxSystem: missing particles and the shortest sentence *)

Lemma particle_unavailable {B} (s : SyntaxSystem) (role : string)
    (k : string → Gen B) (r : Rng) :
  list_bool (particle_list s role) = false →
  (let* ps := dict_getitem (particles s) role in
   let* p := random_choice ps in k p) r
  = Raise (particle_error s role).
Proof.
  unfold particle_list, particle_error, dict_getitem.
  destruct (dict_get (particles s) role) as [[|p ps]|]; by simpl.
Qed.

Lemma particle_available {B} (s : SyntaxSystem) (role : string)
    (k : string → Gen B) (r : Rng) :
  list_bool (particle_list s role) = true →
  ∃ p r1, p ∈ particle_list s role
          ∧ (let* ps := dict_getitem (particles s) role in
             let* p := random_choice ps in k p) r = k p r1.
Proof.
  intros [Hget Hne]%particle_list_get.
  destruct (total_choice _ Hne r) as (p & r1 & Hp & Hin).
  exists p, r1. split; [done |].
  unfold gbind, dict_getitem. rewrite Hget. simpl. by rewrite Hp.
Qed.

(** X9. Without a usable list of subject particles every call fails, whatever
    its arguments: with [KeyError] when "subject" is no key of [particles],
    with [IndexError] when its list is empty. *)
Theorem generate_sentence_no_subject_particle (s : SyntaxSystem)
    (subject verb obj : string) (add_adverb : bool) (adverb : string)
    (r : Rng) :
  list_bool (particle_list s "subject") = false →
  generate_sentence s subject verb obj add_adverb adverb r
  = Raise (particle_error s "subject").
Proof.
  intros Hno. unfold generate_sentence. by apply particle_unavailable.
Qed.

Lemma generate_sentence_no_subject_particle_witness :
  list_bool (particle_list {| word_order := "SOV"; particles := [] |} "subject")
  = false
  ∧ generate_sentence {| word_order := "SOV"; particles := [] |}
      "neko" "miru" "" false "" (λ n, n)
    = Raise (particle_error {| word_order := "SOV"; particles := [] |} "subject").
Proof.
  split; [reflexivity |].
  apply (generate_sentence_no_subject_particle
           {| word_order := "SOV"; particles := [] |}
           "neko" "miru" "" false "" (λ n, n)).
  reflexivity.
Defined.

(** X10. With subject particles present, a non-empty object still makes the
    call fail when there is no usable list of object particles: [KeyError]
    for a missing "object" key, [IndexError] for an empty list. *)
Theorem generate_sentence_no_object_particle (s : SyntaxSystem)
    (subject verb obj : string) (add_adverb : bool) (adverb : string)
    (r : Rng) :
  list_bool (particle_list s "subject") = true →
  list_bool (particle_list s "object") = false →
  obj ≠ "" →
  generate_sentence s subject verb obj add_adverb adverb r
  = Raise (particle_error s "object").
Proof.
  intros Hsub Hno Hobj. unfold generate_sentence.
  destruct (particle_available s "subject"
              (λ p, let parts := [] ++ [subject +:+ p] in
                    let* parts :=
                      if str_bool obj then
                        let* ps := dict_getitem (particles s) "object" in
                        let* p := random_choice ps in
                        gret (parts ++ [obj +:+ p])
                      else gret parts in
                    let* parts :=
                      if add_adverb && str_bool adverb then
                        let* ps := dict_getitem (particles s) "direction" in
                        let* p := random_choice ps in
                        gret (parts ++ [adverb +:+ p])
                      else gret parts in
                    let parts := parts ++ [verb] in
                    gret (String.concat " " parts +:+ ".")) r Hsub)
    as (sp & r1 & _ & Hrun).
  etrans; [exact Hrun |].
  destruct obj as [|c obj']; [done |]. simpl.
  unfold gbind at 1.
  by rewrite (particle_unavailable s "object" _ r1 Hno).
Qed.

Lemma generate_sentence_no_object_particle_witness :
  list_bool (particle_list
               {| word_order := "SOV"; particles := [("subject", ["wa"])] |}
               "subject") = true
  ∧ list_bool (particle_list
                 {| word_order := "SOV"; particles := [("subject", ["wa"])] |}
                 "object") = false
  ∧ "sakana" ≠ ""
  ∧ generate_sentence
      {| word_order := "SOV"; particles := [("subject", ["wa"])] |}
      "neko" "miru" "sakana" false "" (λ n, n)
    = Raise (particle_error
               {| word_order := "SOV"; particles := [("subject", ["wa"])] |}
               "object").
Proof.
  split; [reflexivity |]. split; [reflexivity |]. split; [discriminate |].
  apply (generate_sentence_no_object_particle
           {| word_order := "SOV"; particles := [("subject", ["wa"])] |}
           "neko" "miru" "sakana" false "" (λ n, n));
    [reflexivity | reflexivity | discriminate].
Defined.

(** X11. Without an object and without an adverb the sentence is the subject
    with its particle, one space, the verb and the period; only the subject
    particles are consulted, so the other roles may be missing. *)
Theorem generate_sentence_minimal (s : SyntaxSystem)
    (subject verb adverb : string) (add_adverb : bool) (r : Rng) :
  list_bool (particle_list s "subject") = true →
  add_adverb = false ∨ adverb = "" →
  ∃ sp r', sp ∈ particle_list s "subject"
           ∧ generate_sentence s subject verb "" add_adverb adverb r
             = Ok (subject +:+ sp +:+ " " +:+ verb +:+ ".", r').
Proof.
  intros Hsub Hadv. unfold generate_sentence.
  destruct (particle_available s "subject"
              (λ p, let parts := [] ++ [subject +:+ p] in
                    let* parts :=
                      if str_bool "" then
                        let* ps := dict_getitem (particles s) "object" in
                        let* p := random_choice ps in
                        gret (parts ++ ["" +:+ p])
                      else gret parts in
                    let* parts :=
                      if add_adverb && str_bool adverb then
                        let* ps := dict_getitem (particles s) "direction" in
                        let* p := random_choice ps in
                        gret (parts ++ [adverb +:+ p])
                      else gret parts in
                    let parts := parts ++ [verb] in
                    gret (String.concat " " parts +:+ ".")) r Hsub)
    as (sp & r1 & Hsp & Hrun).
  exists sp, r1. split; [done |]. etrans; [exact Hrun |].
  assert (add_adverb && str_bool adverb = false) as ->.
  { destruct Hadv as [-> | ->]; [done | by destruct add_adverb]. }
  simpl. unfold gbind, gret.
  change (String.concat " " ([subject +:+ sp] ++ [verb]))
    with ((subject +:+ sp) +:+ " " +:+ verb).
  by rewrite !string_app_assoc.
Qed.

Lemma generate_sentence_minimal_witness :
  list_bool (particle_list
               {| word_order := "SOV"; particles := [("subject", ["wa"])] |}
               "subject") = true
  ∧ (false = false ∨ "" = "")
  ∧ ∃ sp r',
      sp ∈ particle_list
             {| word_order := "SOV"; particles := [("subject", ["wa"])] |}
             "subject"
      ∧ generate_sentence
          {| word_order := "SOV"; particles := [("subject", ["wa"])] |}
          "neko" "miru" "" false "" (λ n, n)
        = Ok ("neko" +:+ sp +:+ " " +:+ "miru" +:+ ".", r').
Proof.
  split; [reflexivity |]. split; [left; reflexivity |].
  apply (generate_sentence_minimal
           {| word_order := "SOV"; particles := [("subject", ["wa"])] |}
           "neko" "miru" "" false (λ n, n));
    [reflexivity | left; reflexivity].
Defined.



(** ** The handlers: what they write and what they store *)

Lemma frame_refl a : frame a a.
Proof. by split_and!. Qed.

Lemma frame_trans a b c : frame a b → frame b c → frame a c.
Proof. intros (? & ? & ?) (? & ? & ?). split_and!; congruence. Qed.

Lemma says_refl a : says [] a a.
Proof. split_and!; [apply frame_refl | done | by rewrite app_nil_r]. Qed.

Lemma says_trans l1 l2 a b c : says l1 a b → says l2 b c → says (l1 ++ l2) a c.
Proof.
  intros (Hf & Hw & Ho) (Hf' & Hw' & Ho'). split_and!.
  - by eapply frame_trans.
  - intros k. by rewrite Hw', Hw.
  - by rewrite Ho', Ho, app_assoc.
Qed.

Lemma says_append_output a text : says [text +:+ nl] a (append_output a text).
Proof. split_and!; [by split_and! | done | done]. Qed.

Lemma says_same_store l a b : says l a b → same_store a b.
Proof. intros ((Hp & _ & Hs) & Hw & _). by split_and!. Qed.

Lemma vocabulary_getitem_says a k :
  ∃ b, vocabulary_getitem a k = (words_of (vocabulary a) k, b) ∧ says [] a b.
Proof.
  unfold vocabulary_getitem.
  destruct (defaultdict_getitem_spec (vocabulary a) k) as (d' & -> & Hd').
  eexists. split; [reflexivity |].
  split_and!; [by split_and! | done | simpl; by rewrite app_nil_r].
Qed.

Lemma says_nil_l l a b c : says [] a b → says l b c → says l a c.
Proof. intros Hab Hbc. exact (says_trans [] l a b c Hab Hbc). Qed.

Lemma says_nil_r l a b c : says l a b → says [] b c → says l a c.
Proof.
  intros Hab Hbc. rewrite <- (app_nil_r l). by eapply says_trans.
Qed.

(** One [if words: …] block of [show_morphology], for the classes read with
    [self.vocabulary[k]]; [a1] is the state after that first read. *)
Lemma total_morphology_block a a1 k label rule :
  says [] a a1 →
  total
    (if list_bool (words_of (vocabulary a) k) then
       let '(ws, self) := vocabulary_getitem a1 k in
       let* w := random_choice ws in
       let variant := apply_morphology (morphology self) w rule in
       gret (append_output self (label +:+ w +:+ " → " +:+ variant))
     else gret a1)
    (λ b, ∃ lines, says lines a b
                   ∧ morphology_lines label rule (morphology a)
                       (words_of (vocabulary a) k) lines).
Proof.
  intros Ha1.
  destruct (words_of (vocabulary a) k) as [|w0 ws] eqn:Hk; simpl.
  - apply total_ret. exists []. split; [done | by left].
  - destruct (vocabulary_getitem_says a1 k) as (a2 & -> & Ha2).
    pose proof (says_nil_l _ _ _ _ Ha1 Ha2) as Ha12.
    destruct Ha1 as (_ & Hw1 & _).
    eapply total_bind; [apply total_choice; by rewrite Hw1, Hk |].
    intros w Hw. apply total_ret.
    rewrite Hw1, Hk in Hw.
    eexists. split.
    + eapply says_nil_l; [exact Ha12 | apply says_append_output].
    + right. exists w. split; [done |].
      destruct Ha12 as ((_ & -> & _) & _). done.
Qed.

(** The last block of [show_morphology], which reads the class with
    [self.vocabulary.get]. *)
Lemma total_adjective_block c :
  total
    (match dict_get (vocabulary c) "adjective" with
     | Some (_ :: _) =>
         let '(adjs, self) := vocabulary_getitem c "adjective" in
         let* adj := random_choice adjs in
         let neg := apply_morphology (morphology self) adj "negative" in
         gret (append_output self ("形容詞否定: " +:+ adj +:+ " → " +:+ neg))
     | _ => gret c
     end)
    (λ d, ∃ lines, says lines c d
                   ∧ morphology_lines "形容詞否定: " "negative" (morphology c)
                       (words_of (vocabulary c) "adjective") lines).
Proof.
  destruct (dict_get (vocabulary c) "adjective") as [[|w0 ws]|] eqn:Hadj.
  - apply total_ret. exists []. split; [apply says_refl |].
    left. split; [| done]. unfold words_of. by rewrite Hadj.
  - destruct (vocabulary_getitem_says c "adjective") as (c1 & -> & Hc1).
    assert (words_of (vocabulary c) "adjective" = w0 :: ws) as Hws.
    { unfold words_of. by rewrite Hadj. }
    eapply total_bind; [apply total_choice; by rewrite Hws |].
    intros w Hw. apply total_ret.
    eexists. split.
    + eapply says_nil_l; [exact Hc1 | apply says_append_output].
    + right. exists w. split; [done |].
      destruct Hc1 as ((_ & -> & _) & _). done.
  - apply total_ret. exists []. split; [apply says_refl |].
    left. split; [| done]. unfold words_of. by rewrite Hadj.
Qed.

Lemma total_show_morphology_lines a :
  total (show_morphology a)
    (λ b, ∃ l1 l2 l3,
       says ([(nl +:+ "🔧 構詞變化展示：") +:+ nl; str_mul "-" 50 +:+ nl]
             ++ l1 ++ l2 ++ l3) a b
       ∧ morphology_lines "名詞複數: " "plural" (morphology a)
           (words_of (vocabulary a) "noun") l1
       ∧ morphology_lines "動詞過去式: " "past" (morphology a)
           (words_of (vocabulary a) "verb") l2
       ∧ morphology_lines "形容詞否定: " "negative" (morphology a)
           (words_of (vocabulary a) "adjective") l3).
Proof.
  unfold show_morphology.
  set (a1 := append_output (append_output a _) _).
  assert (says [(nl +:+ "🔧 構詞變化展示：") +:+ nl; str_mul "-" 50 +:+ nl] a a1)
    as Ha1.
  { exact (says_trans [_] [_] _ _ _ (says_append_output a _)
             (says_append_output _ _)). }
  destruct (vocabulary_getitem_says a1 "noun") as (a2 & -> & Ha2).
  cbv beta iota.
  eapply total_bind;
    [by apply (total_morphology_block a1 a2 "noun" "名詞複數: " "plural") |].
  intros b (l1 & Hb & Hl1).
  destruct (vocabulary_getitem_says b "verb") as (b2 & -> & Hb2).
  cbv beta iota.
  eapply total_bind;
    [by apply (total_morphology_block b b2 "verb" "動詞過去式: " "past") |].
  intros c (l2 & Hc & Hl2).
  eapply total_mono; [apply total_adjective_block |].
  intros d (l3 & Hd & Hl3). exists l1, l2, l3.
  pose proof (says_trans _ _ _ _ _ Hb Hc) as Hbc.
  pose proof (says_trans _ _ _ _ _ Ha1 Hbc) as Hac.
  split; [exact (says_trans _ _ _ _ _ Ha1
                   (says_trans _ _ _ _ _ Hb (says_trans _ _ _ _ _ Hc Hd))) |].
  destruct Hac as ((_ & Hmc & _) & Hwc & _).
  destruct Hb as ((_ & Hmb & _) & Hwb & _).
  rewrite Hmc, Hwc in Hl3. rewrite Hmb, Hwb in Hl2.
  by split_and!.
Qed.

(** X13. [show_morphology] returns from every state, whatever the generator
    systems hold, and leaves them and every stored word list as they were:
    each [random.choice] is guarded by the emptiness test before it. *)
Theorem show_morphology_safe (self : JapaneseLanguageCreatorUI) (r : Rng) :
  ∃ self' r',
    show_morphology self r = Ok (self', r')
    ∧ frame self self'
    ∧ ∀ k, words_of (vocabulary self') k = words_of (vocabulary self) k.
Proof.
  destruct (total_show_morphology_lines self r)
    as (b & r' & Hrun & l1 & l2 & l3 & (Hf & Hw & _) & _).
  by exists b, r'.
Qed.

(** X14. [show_morphology] writes its two header lines and then, for each of
    the classes noun, verb and adjective that has a word, one line showing a
    stored word of the class and the result of the rule "plural", "past" or
    "negative" on it; a class without words gets no line. *)
Theorem show_morphology_output (self : JapaneseLanguageCreatorUI) (r : Rng) :
  ∃ self' r' l1 l2 l3,
    show_morphology self r = Ok (self', r')
    ∧ output_text self'
      = output_text self
        ++ [(nl +:+ "🔧 構詞變化展示：") +:+ nl; str_mul "-" 50 +:+ nl]
        ++ l1 ++ l2 ++ l3
    ∧ morphology_lines "名詞複數: " "plural" (morphology self)
        (words_of (vocabulary self) "noun") l1
    ∧ morphology_lines "動詞過去式: " "past" (morphology self)
        (words_of (vocabulary self) "verb") l2
    ∧ morphology_lines "形容詞否定: " "negative" (morphology self)
        (words_of (vocabulary self) "adjective") l3.
Proof.
  destruct (total_show_morphology_lines self r)
    as (b & r' & Hrun & l1 & l2 & l3 & (_ & _ & Hout) & H1 & H2 & H3).
  by exists b, r', l1, l2, l3.
Qed.

Lemma total_generate_word_suffix (p : PhonologySystem) (sc : option Z)
    (wt : string) :
  choices_ok p = true →
  total (generate_word p sc wt) (ends_with_one_of (word_suffixes wt)).
Proof.
  intros Hok. unfold generate_word.
  eapply total_bind; [apply total_resolve_count |]. intros n _.
  eapply total_mono; [by apply total_word_syllables |].
  intros w (syls & sfx & -> & _ & _ & Hsfx). by exists (String.concat "" syls), sfx.
Qed.

(** One round of the loop of [generate_vocabulary]. *)
Lemma total_vocabulary_round s (i : Z) (wt chinese : string) :
  choices_ok (phonology s) = true →
  total
    (let* n := random_randint 2 3 in
     let* word := generate_word (phonology s) (Some n) wt in
     let self := vocabulary_append s wt word in
     gret (append_output self
             (pretty i +:+ ". " +:+ word +:+ " (" +:+ chinese +:+ ")")))
    (λ b, ∃ w,
       ends_with_one_of (word_suffixes wt) w
       ∧ frame s b
       ∧ words_of (vocabulary b) wt = words_of (vocabulary s) wt ++ [w]
       ∧ (∀ k, k ≠ wt → words_of (vocabulary b) k = words_of (vocabulary s) k)
       ∧ output_text b
         = output_text s
           ++ [(pretty i +:+ ". " +:+ w +:+ " (" +:+ chinese +:+ ")") +:+ nl]).
Proof.
  intros Hok.
  eapply total_bind; [by apply (total_randint 2 3) |]. intros n _.
  eapply total_bind; [by apply total_generate_word_suffix |]. intros w Hw.
  apply total_ret. exists w.
  destruct (vocabulary_append_spec s wt w) as (_ & _ & Hk & Hother).
  split_and!; [done | by split_and! | exact Hk | exact Hother | done].
Qed.

Lemma total_generate_vocabulary_rounds a :
  choices_ok (phonology a) = true →
  total (generate_vocabulary a)
    (λ b, ∃ n1 v n2 adj n3,
       frame a b
       ∧ Forall (ends_with_one_of noun_suffixes) [n1; n2; n3]
       ∧ ends_with_one_of verb_suffixes v
       ∧ words_of (vocabulary b) "noun"
         = words_of (vocabulary a) "noun" ++ [n1; n2; n3]
       ∧ words_of (vocabulary b) "verb" = words_of (vocabulary a) "verb" ++ [v]
       ∧ words_of (vocabulary b) "adjective"
         = words_of (vocabulary a) "adjective" ++ [adj]
       ∧ (∀ k, k ≠ "noun" → k ≠ "verb" → k ≠ "adjective" →
               words_of (vocabulary b) k = words_of (vocabulary a) k)
       ∧ output_text b
         = output_text a
           ++ [(nl +:+ "🎲 生成新詞彙：") +:+ nl;
               str_mul "-" 50 +:+ nl;
               (pretty 1 +:+ ". " +:+ n1 +:+ " (" +:+ "名詞" +:+ ")") +:+ nl;
               (pretty 2 +:+ ". " +:+ v +:+ " (" +:+ "動詞" +:+ ")") +:+ nl;
               (pretty 3 +:+ ". " +:+ n2 +:+ " (" +:+ "名詞" +:+ ")") +:+ nl;
               (pretty 4 +:+ ". " +:+ adj +:+ " (" +:+ "形容詞" +:+ ")") +:+ nl;
               (pretty 5 +:+ ". " +:+ n3 +:+ " (" +:+ "名詞" +:+ ")") +:+ nl;
               (nl +:+ "✅ 已生成 5 個詞語！") +:+ nl]).
Proof.
  intros Hok. unfold generate_vocabulary.
  set (a1 := append_output (append_output a _) _).
  cbn [for_each enumerate].
  change (1 + 1) with 2. change (2 + 1) with 3. change (3 + 1) with 4.
  change (4 + 1) with 5.
  eapply (total_bind _ _
    (λ b, ∃ n1 v n2 adj n3,
       frame a1 b
       ∧ Forall (ends_with_one_of noun_suffixes) [n1; n2; n3]
       ∧ ends_with_one_of verb_suffixes v
       ∧ words_of (vocabulary b) "noun"
         = words_of (vocabulary a1) "noun" ++ [n1; n2; n3]
       ∧ words_of (vocabulary b) "verb" = words_of (vocabulary a1) "verb" ++ [v]
       ∧ words_of (vocabulary b) "adjective"
         = words_of (vocabulary a1) "adjective" ++ [adj]
       ∧ (∀ k, k ≠ "noun" → k ≠ "verb" → k ≠ "adjective" →
               words_of (vocabulary b) k = words_of (vocabulary a1) k)
       ∧ output_text b
         = output_text a1
           ++ [(pretty 1 +:+ ". " +:+ n1 +:+ " (" +:+ "名詞" +:+ ")") +:+ nl;
               (pretty 2 +:+ ". " +:+ v +:+ " (" +:+ "動詞" +:+ ")") +:+ nl;
               (pretty 3 +:+ ". " +:+ n2 +:+ " (" +:+ "名詞" +:+ ")") +:+ nl;
               (pretty 4 +:+ ". " +:+ adj +:+ " (" +:+ "形容詞" +:+ ")") +:+ nl;
               (pretty 5 +:+ ". " +:+ n3 +:+ " (" +:+ "名詞" +:+ ")") +:+ nl])).
  - eapply total_bind; [by apply (total_vocabulary_round a1 1 "noun" "名詞") |].
    intros b1 (n1 & Hn1 & F1 & K1 & O1 & T1).
    eapply total_bind.
    { apply (total_vocabulary_round b1 2 "verb" "動詞").
      destruct F1 as (-> & _). done. }
    intros b2 (v & Hv & F2 & K2 & O2 & T2).
    pose proof (frame_trans _ _ _ F1 F2) as F12.
    eapply total_bind.
    { apply (total_vocabulary_round b2 3 "noun" "名詞").
      destruct F12 as (-> & _). done. }
    intros b3 (n2 & Hn2 & F3 & K3 & O3 & T3).
    pose proof (frame_trans _ _ _ F12 F3) as F13.
    eapply total_bind.
    { apply (total_vocabulary_round b3 4 "adjective" "形容詞").
      destruct F13 as (-> & _). done. }
    intros b4 (adj & Hadj & F4 & K4 & O4 & T4).
    pose proof (frame_trans _ _ _ F13 F4) as F14.
    eapply total_bind.
    { apply (total_vocabulary_round b4 5 "noun" "名詞").
      destruct F14 as (-> & _). done. }
    intros b5 (n3 & Hn3 & F5 & K5 & O5 & T5).
    apply total_ret. exists n1, v, n2, adj, n3.
    split_and!.
    + by eapply frame_trans.
    + by repeat constructor.
    + done.
    + rewrite K5, (O4 "noun"), K3, (O2 "noun"), K1 by done.
      by rewrite <- !app_assoc.
    + by rewrite (O5 "verb"), (O4 "verb"), (O3 "verb"), K2, (O1 "verb").
    + by rewrite (O5 "adjective"), K4, (O3 "adjective"), (O2 "adjective"),
        (O1 "adjective").
    + intros k Hkn Hkv Hka. by rewrite O5, O4, O3, O2, O1.
    + rewrite T5, T4, T3, T2, T1. by rewrite <- !app_assoc.
  - intros b (n1 & v & n2 & adj & n3 & F & Hn & Hv & Kn & Kv & Ka & Ko & T).
    apply total_ret. exists n1, v, n2, adj, n3.
    split_and!; try done.
    simpl. rewrite T. simpl. by rewrite <- !app_assoc.
Qed.

(** X15. [generate_vocabulary] stores exactly five new words: three nouns,
    one verb and one adjective, each at the end of its class, the nouns and
    the verb ending with a suffix of their type; no other class and no
    generator system changes. *)
Theorem generate_vocabulary_stores_five (self : JapaneseLanguageCreatorUI)
    (r : Rng) :
  choices_ok (phonology self) = true →
  ∃ self' r' n1 n2 n3 v adj,
    generate_vocabulary self r = Ok (self', r')
    ∧ frame self self'
    ∧ words_of (vocabulary self') "noun"
      = words_of (vocabulary self) "noun" ++ [n1; n2; n3]
    ∧ words_of (vocabulary self') "verb"
      = words_of (vocabulary self) "verb" ++ [v]
    ∧ words_of (vocabulary self') "adjective"
      = words_of (vocabulary self) "adjective" ++ [adj]
    ∧ (∀ k, k ≠ "noun" → k ≠ "verb" → k ≠ "adjective" →
            words_of (vocabulary self') k = words_of (vocabulary self) k)
    ∧ Forall (ends_with_one_of noun_suffixes) [n1; n2; n3]
    ∧ ends_with_one_of verb_suffixes v.
Proof.
  intros Hok.
  destruct (total_generate_vocabulary_rounds self Hok r)
    as (b & r' & Hrun & n1 & v & n2 & adj & n3
        & F & Hn & Hv & Kn & Kv & Ka & Ko & _).
  by exists b, r', n1, n2, n3, v, adj.
Qed.

Lemma generate_vocabulary_stores_five_witness :
  choices_ok (phonology JapaneseLanguageCreatorUI_init) = true
  ∧ ∃ self' r' n1 n2 n3 v adj,
      generate_vocabulary JapaneseLanguageCreatorUI_init (λ n, n)
      = Ok (self', r')
      ∧ frame JapaneseLanguageCreatorUI_init self'
      ∧ words_of (vocabulary self') "noun"
        = words_of (vocabulary JapaneseLanguageCreatorUI_init) "noun"
          ++ [n1; n2; n3]
      ∧ words_of (vocabulary self') "verb"
        = words_of (vocabulary JapaneseLanguageCreatorUI_init) "verb" ++ [v]
      ∧ words_of (vocabulary self') "adjective"
        = words_of (vocabulary JapaneseLanguageCreatorUI_init) "adjective"
          ++ [adj]
      ∧ (∀ k, k ≠ "noun" → k ≠ "verb" → k ≠ "adjective" →
              words_of (vocabulary self') k
              = words_of (vocabulary JapaneseLanguageCreatorUI_init) k)
      ∧ Forall (ends_with_one_of noun_suffixes) [n1; n2; n3]
      ∧ ends_with_one_of verb_suffixes v.
Proof.
  split; [reflexivity |].
  apply (generate_vocabulary_stores_five JapaneseLanguageCreatorUI_init (λ n, n)).
  reflexivity.
Defined.

(** X16. [generate_vocabulary] writes eight lines: two header lines, the five
    stored words numbered 1 to 5 in the order noun, verb, noun, adjective,
    noun, each with its class label, and a closing line. *)
Theorem generate_vocabulary_output (self : JapaneseLanguageCreatorUI)
    (r : Rng) :
  choices_ok (phonology self) = true →
  ∃ self' r' n1 n2 n3 v adj,
    generate_vocabulary self r = Ok (self', r')
    ∧ words_of (vocabulary self') "noun"
      = words_of (vocabulary self) "noun" ++ [n1; n2; n3]
    ∧ words_of (vocabulary self') "verb"
      = words_of (vocabulary self) "verb" ++ [v]
    ∧ words_of (vocabulary self') "adjective"
      = words_of (vocabulary self) "adjective" ++ [adj]
    ∧ output_text self'
      = output_text self
        ++ [(nl +:+ "🎲 生成新詞彙：") +:+ nl;
            str_mul "-" 50 +:+ nl;
            (pretty 1 +:+ ". " +:+ n1 +:+ " (" +:+ "名詞" +:+ ")") +:+ nl;
            (pretty 2 +:+ ". " +:+ v +:+ " (" +:+ "動詞" +:+ ")") +:+ nl;
            (pretty 3 +:+ ". " +:+ n2 +:+ " (" +:+ "名詞" +:+ ")") +:+ nl;
            (pretty 4 +:+ ". " +:+ adj +:+ " (" +:+ "形容詞" +:+ ")") +:+ nl;
            (pretty 5 +:+ ". " +:+ n3 +:+ " (" +:+ "名詞" +:+ ")") +:+ nl;
            (nl +:+ "✅ 已生成 5 個詞語！") +:+ nl].
Proof.
  intros Hok.
  destruct (total_generate_vocabulary_rounds self Hok r)
    as (b & r' & Hrun & n1 & v & n2 & adj & n3
        & _ & _ & _ & Kn & Kv & Ka & _ & T).
  by exists b, r', n1, n2, n3, v, adj.
Qed.

Lemma generate_vocabulary_output_witness :
  choices_ok (phonology JapaneseLanguageCreatorUI_init) = true
  ∧ ∃ self' r' n1 n2 n3 v adj,
      generate_vocabulary JapaneseLanguageCreatorUI_init (λ n, n)
      = Ok (self', r')
      ∧ words_of (vocabulary self') "noun"
        = words_of (vocabulary JapaneseLanguageCreatorUI_init) "noun"
          ++ [n1; n2; n3]
      ∧ words_of (vocabulary self') "verb"
        = words_of (vocabulary JapaneseLanguageCreatorUI_init) "verb" ++ [v]
      ∧ words_of (vocabulary self') "adjective"
        = words_of (vocabulary JapaneseLanguageCreatorUI_init) "adjective"
          ++ [adj]
      ∧ output_text self'
        = output_text JapaneseLanguageCreatorUI_init
          ++ [(nl +:+ "🎲 生成新詞彙：") +:+ nl;
              str_mul "-" 50 +:+ nl;
              (pretty 1 +:+ ". " +:+ n1 +:+ " (" +:+ "名詞" +:+ ")") +:+ nl;
              (pretty 2 +:+ ". " +:+ v +:+ " (" +:+ "動詞" +:+ ")") +:+ nl;
              (pretty 3 +:+ ". " +:+ n2 +:+ " (" +:+ "名詞" +:+ ")") +:+ nl;
              (pretty 4 +:+ ". " +:+ adj +:+ " (" +:+ "形容詞" +:+ ")") +:+ nl;
              (pretty 5 +:+ ". " +:+ n3 +:+ " (" +:+ "名詞" +:+ ")") +:+ nl;
              (nl +:+ "✅ 已生成 5 個詞語！") +:+ nl].
Proof.
  split; [reflexivity |].
  apply (generate_vocabulary_output JapaneseLanguageCreatorUI_init (λ n, n)).
  reflexivity.
Defined.

Lemma total_seed_class_frame a1 (ws : list string) k wt count :
  choices_ok (phonology a1) = true →
  total
    (if negb (list_bool ws) then
       for_each (range count)
         (λ self _,
            let* w := generate_word (phonology self) (Some 2) wt in
            gret (vocabulary_append self k w))
         a1
     else gret a1)
    (λ b, frame a1 b ∧ output_text b = output_text a1).
Proof.
  intros Hok. destruct (negb (list_bool ws)).
  - apply (total_for_each _ _ (λ b, frame a1 b ∧ output_text b = output_text a1)).
    { split; [apply frame_refl | done]. }
    intros s _ [Hf Ho].
    eapply total_bind.
    { apply total_generate_word. destruct Hf as (-> & _). done. }
    intros w _. apply total_ret. split; [| done].
    eapply frame_trans; [done | by split_and!].
  - apply total_ret. split; [apply frame_refl | done].
Qed.

Lemma total_seed_frame a :
  choices_ok (phonology a) = true →
  total (seed_vocabulary a) (λ b, frame a b ∧ output_text b = output_text a).
Proof.
  intros Hok. unfold seed_vocabulary.
  destruct (vocabulary_getitem_says a "noun") as (a1 & -> & Ha1).
  destruct Ha1 as (Hf1 & _ & Ho1). rewrite app_nil_r in Ho1.
  eapply total_bind.
  { apply total_seed_class_frame. destruct Hf1 as (-> & _). done. }
  intros b [Hfb Hob].
  destruct (vocabulary_getitem_says b "verb") as (b1 & -> & Hb1).
  destruct Hb1 as (Hfb1 & _ & Hob1). rewrite app_nil_r in Hob1.
  pose proof (frame_trans _ _ _ Hf1 (frame_trans _ _ _ Hfb Hfb1)) as Hf.
  eapply total_mono.
  { apply total_seed_class_frame. destruct Hf as (-> & _). done. }
  intros c [Hfc Hoc]. split; [by eapply frame_trans | congruence].
Qed.

Lemma sentence_line_transfer a b i line :
  (∀ k, words_of (vocabulary b) k = words_of (vocabulary a) k) →
  syntax b = syntax a →
  sentence_line a i line → sentence_line b i line.
Proof.
  intros Hw Hs (subject & verb & obj & add & adverb & sp & op & dp & H).
  exists subject, verb, obj, add, adverb, sp, op, dp.
  by rewrite !Hw, Hs.
Qed.

Lemma pattern_adverb_object (pattern : list string) :
  pattern ∈ sentence_patterns →
  str_in "Adv" pattern = true → str_in "O" pattern = true.
Proof.
  revert pattern.
  apply (Forall_forall
           (λ p, str_in "Adv" p = true → str_in "O" p = true)
           sentence_patterns).
  by repeat constructor.
Qed.

Lemma total_sentence_step_line a i :
  ui_ok a = true →
  words_of (vocabulary a) "noun" ≠ [] → words_of (vocabulary a) "verb" ≠ [] →
  total (sentence_step a i)
    (λ b, ∃ line, says [line] a b ∧ sentence_line a i line).
Proof.
  intros [Hok Hsyn]%ui_ok_inv Hnoun Hverb. unfold sentence_step.
  eapply total_bind; [by apply total_choice |]. intros pattern Hpat.
  destruct (vocabulary_getitem_says a "noun") as (a1 & -> & Ha1).
  eapply total_bind; [by apply total_choice |]. intros subject Hsubject.
  destruct (vocabulary_getitem_says a1 "verb") as (a2 & -> & Ha2).
  pose proof (says_nil_l _ _ _ _ Ha1 Ha2) as Ha12.
  assert (words_of (vocabulary a1) "verb" = words_of (vocabulary a) "verb")
    as Hv1 by (by destruct Ha1 as (_ & -> & _)).
  eapply total_bind; [apply total_choice; by rewrite Hv1 |].
  intros verb Hverbin. rewrite Hv1 in Hverbin.
  eapply (total_bind _ _
            (λ os, says [] a os.2
                   ∧ ((os.1 = "" ∧ str_in "O" pattern = false)
                      ∨ os.1 ∈ words_of (vocabulary a) "noun"))).
  { destruct (str_in "O" pattern).
    - destruct (vocabulary_getitem_says a2 "noun") as (a3 & -> & Ha3).
      assert (words_of (vocabulary a2) "noun" = words_of (vocabulary a) "noun")
        as Hn2 by (by destruct Ha12 as (_ & -> & _)).
      eapply total_bind; [apply total_choice; by rewrite Hn2 |].
      intros o Ho. rewrite Hn2 in Ho. apply total_ret. simpl. split.
      + by eapply says_nil_l.
      + by right.
    - apply total_ret. simpl. split; [done | by left]. }
  intros [obj a3] [Ha3 Hobj]. simpl in Ha3, Hobj.
  destruct (Ha3) as ((Hp3 & Hm3 & Hs3) & Hw3 & Ho3).
  eapply (total_bind _ _ (λ _, True)).
  { destruct (str_in "Adv" pattern); [| by apply total_ret].
    apply total_generate_word. by rewrite Hp3. }
  intros adverb _.
  eapply total_bind; [apply total_generate_sentence; by rewrite Hs3 |].
  intros sentence (sp & op & dp & Hsp & Hop & Hdp & ->).
  apply total_ret. eexists. split.
  { eapply says_nil_l; [exact Ha3 | apply says_append_output]. }
  exists subject, verb, obj, (str_in "Adv" pattern), adverb, sp, op, dp.
  rewrite Hs3 in Hsp, Hop, Hdp.
  split_and!; try done.
  - destruct Hobj as [[-> _] | Hin]; [by left | by right].
  - intros Hadv. destruct Hobj as [[_ HO] | Hin]; [| done].
    rewrite (pattern_adverb_object pattern Hpat Hadv) in HO. done.
Qed.

Lemma total_for_each_lines {X} (L : X → string → Prop)
    (I : JapaneseLanguageCreatorUI → Prop)
    (body : JapaneseLanguageCreatorUI → X → Gen JapaneseLanguageCreatorUI)
    (xs : list X) (s : JapaneseLanguageCreatorUI) :
  I s →
  (∀ s x, I s →
     total (body s x)
       (λ s', ∃ line, I s' ∧ output_text s' = output_text s ++ [line]
                      ∧ L x line)) →
  total (for_each xs body s)
    (λ s', ∃ lines, I s' ∧ output_text s' = output_text s ++ lines
                    ∧ Forall2 L xs lines).
Proof.
  intros Hs Hbody. revert s Hs.
  induction xs as [|x xs IH]; intros s Hs; simpl.
  - apply total_ret. exists []. split_and!; [done | by rewrite app_nil_r | done].
  - eapply total_bind; [by apply Hbody |].
    intros s1 (line & Hs1 & Ho1 & Hl).
    eapply total_mono; [by apply IH |].
    intros s2 (lines & Hs2 & Ho2 & Hls).
    exists (line :: lines). split_and!; [done | | by constructor].
    rewrite Ho2, Ho1. by rewrite <- app_assoc.
Qed.

Lemma seeded_same_r k n a b c :
  seeded k n a b → same_store b c → seeded k n a c.
Proof.
  intros (Hp & Hs & Ho & He & Hf) (Hp' & Hs' & Hw').
  split_and!; [congruence | congruence | | |].
  - intros k' Hk. by rewrite Hw', Ho.
  - intros Hnil. by rewrite Hw', He.
  - intros Hne. by rewrite Hw', Hf.
Qed.

Lemma total_generate_sentences_lines a count :
  ui_ok a = true →
  total (generate_sentences a count)
    (λ c, frame a c
          ∧ (∃ b, seeded "noun" 3 a b ∧ seeded "verb" 2 b c)
          ∧ ∃ lines,
              output_text c
              = output_text a
                ++ [(nl +:+ "📝 生成 " +:+ pretty count +:+ " 個句子：") +:+ nl;
                    str_mul "-" 50 +:+ nl]
                ++ lines
              ∧ Forall2 (sentence_line c) (range count) lines).
Proof.
  intros Hok. unfold generate_sentences.
  set (a1 := append_output (append_output a _) _).
  assert (ui_ok a1 = true) as Hok1 by done.
  destruct (ui_ok_inv a1 Hok1) as [Hph1 _].
  eapply total_bind.
  { apply total_and; [by apply total_seed_vocabulary | by apply total_seed_frame]. }
  intros c0 [(b & Hb & Hc0) [Hf0 Ho0]].
  pose proof (seeded_nonempty _ _ _ _ Hc0 ltac:(lia)) as Hverb.
  assert (words_of (vocabulary c0) "noun" ≠ []) as Hnoun.
  { destruct Hc0 as (_ & _ & Hother & _). rewrite Hother by done.
    apply (seeded_nonempty _ _ _ _ Hb). lia. }
  assert (ui_ok c0 = true) as Hok0.
  { unfold ui_ok. destruct Hf0 as (-> & _ & ->). done. }
  eapply total_mono.
  { apply (total_for_each_lines (sentence_line c0)
             (λ s, frame c0 s
                   ∧ ∀ k, words_of (vocabulary s) k = words_of (vocabulary c0) k)).
    { split; [apply frame_refl | done]. }
    intros s i [Hfs Hws].
    eapply total_mono.
    { apply total_sentence_step_line.
      - unfold ui_ok. destruct Hfs as (-> & _ & ->). done.
      - by rewrite Hws.
      - by rewrite Hws. }
    intros s' (line & (Hf' & Hw' & Ho') & Hline). exists line.
    split_and!.
    - by eapply frame_trans.
    - intros k. by rewrite Hw', Hws.
    - done.
    - eapply sentence_line_transfer; [| | exact Hline].
      + intros k. by rewrite Hws.
      + by destruct Hfs as (_ & _ & ->). }
  intros c (lines & [Hfc Hwc] & Hoc & Hlines).
  split_and!.
  - eapply frame_trans; [| exact Hfc]. eapply frame_trans; [| exact Hf0].
    by split_and!.
  - exists b. split; [exact Hb |].
    eapply seeded_same_r; [exact Hc0 |].
    destruct Hfc as (? & _ & ?). by split_and!.
  - exists lines. split.
    + rewrite Hoc, Ho0. simpl. by rewrite <- !app_assoc.
    + eapply Forall2_impl; [exact Hlines |].
      intros i line Hl. eapply sentence_line_transfer; [| | exact Hl].
      * done.
      * by destruct Hfc as (_ & _ & ->).
Qed.

Lemma seeded_store_seeded a b c :
  seeded "noun" 3 a b → seeded "verb" 2 b c → store_seeded a c.
Proof.
  intros (_ & _ & Ho & He & Hf) (_ & _ & Ho' & He' & Hf').
  assert (words_of (vocabulary c) "noun" = words_of (vocabulary b) "noun")
    as Hn by (by apply Ho').
  assert (words_of (vocabulary b) "verb" = words_of (vocabulary a) "verb")
    as Hv by (by apply Ho).
  split_and!.
  - intros k Hkn Hkv. by rewrite Ho', Ho.
  - intros Hne. by rewrite Hn, Hf.
  - intros Hne. rewrite <- Hv. apply Hf'. by rewrite Hv.
  - intros Hnil. rewrite Hn. by apply He.
  - intros Hnil. apply He'. by rewrite Hv.
Qed.

Lemma store_seeded_nonempty a c :
  store_seeded a c →
  words_of (vocabulary c) "noun" ≠ [] ∧ words_of (vocabulary c) "verb" ≠ [].
Proof.
  intros (_ & Hn & Hv & Hn0 & Hv0). split.
  - destruct (words_of (vocabulary a) "noun") as [|w ws] eqn:Ha.
    + intros Hnil. rewrite Hnil in Hn0. by specialize (Hn0 eq_refl).
    + by rewrite Hn.
  - destruct (words_of (vocabulary a) "verb") as [|w ws] eqn:Ha.
    + intros Hnil. rewrite Hnil in Hv0. by specialize (Hv0 eq_refl).
    + by rewrite Hv.
Qed.

(** X17. [generate_sentences], for any count, changes the store only by
    seeding: an empty noun class receives three words, an empty verb class
    two, classes that already hold words and all other classes stay as they
    are (the adverbs it generates are never stored), and afterwards both
    classes are non-empty; the generator systems are untouched. *)
Theorem generate_sentences_store (self : JapaneseLanguageCreatorUI)
    (count : Z) (r : Rng) :
  ui_ok self = true →
  ∃ self' r',
    generate_sentences self count r = Ok (self', r')
    ∧ frame self self'
    ∧ store_seeded self self'
    ∧ words_of (vocabulary self') "noun" ≠ []
    ∧ words_of (vocabulary self') "verb" ≠ [].
Proof.
  intros Hok.
  destruct (total_generate_sentences_lines self count Hok r)
    as (c & r' & Hrun & Hf & (b & Hb & Hc) & _).
  pose proof (seeded_store_seeded _ _ _ Hb Hc) as Hseed.
  destruct (store_seeded_nonempty _ _ Hseed) as [Hn Hv].
  by exists c, r'.
Qed.

Lemma generate_sentences_store_witness :
  ui_ok JapaneseLanguageCreatorUI_init = true
  ∧ ∃ self' r',
      generate_sentences JapaneseLanguageCreatorUI_init 5 (λ n, n)
      = Ok (self', r')
      ∧ frame JapaneseLanguageCreatorUI_init self'
      ∧ store_seeded JapaneseLanguageCreatorUI_init self'
      ∧ words_of (vocabulary self') "noun" ≠ []
      ∧ words_of (vocabulary self') "verb" ≠ [].
Proof.
  split; [reflexivity |].
  apply (generate_sentences_store JapaneseLanguageCreatorUI_init 5 (λ n, n)).
  reflexivity.
Defined.

(** X18. [generate_sentences] writes its two header lines and then one line
    per round, numbered from 1: each is a sentence whose subject is a stored
    noun, whose verb is a stored verb, whose object, if any, is a stored
    noun, and which has an adverb only together with an object. *)
Theorem generate_sentences_output (self : JapaneseLanguageCreatorUI)
    (count : Z) (r : Rng) :
  ui_ok self = true →
  ∃ self' r' lines,
    generate_sentences self count r = Ok (self', r')
    ∧ output_text self'
      = output_text self
        ++ [(nl +:+ "📝 生成 " +:+ pretty count +:+ " 個句子：") +:+ nl;
            str_mul "-" 50 +:+ nl]
        ++ lines
    ∧ Forall2 (sentence_line self') (range count) lines.
Proof.
  intros Hok.
  destruct (total_generate_sentences_lines self count Hok r)
    as (c & r' & Hrun & _ & _ & lines & Hout & Hlines).
  by exists c, r', lines.
Qed.

Lemma generate_sentences_output_witness :
  ui_ok JapaneseLanguageCreatorUI_init = true
  ∧ ∃ self' r' lines,
      generate_sentences JapaneseLanguageCreatorUI_init 5 (λ n, n)
      = Ok (self', r')
      ∧ output_text self'
        = output_text JapaneseLanguageCreatorUI_init
          ++ [(nl +:+ "📝 生成 " +:+ pretty 5 +:+ " 個句子：") +:+ nl;
              str_mul "-" 50 +:+ nl]
          ++ lines
      ∧ Forall2 (sentence_line self') (range 5) lines.
Proof.
  split; [reflexivity |].
  apply (generate_sentences_output JapaneseLanguageCreatorUI_init 5 (λ n, n)).
  reflexivity.
Defined.

(** X19. With a count of zero or less [generate_sentences] writes only its two
    header lines, yet it still seeds an empty store with three nouns and two
    verbs. *)
Theorem generate_sentences_no_rounds (self : JapaneseLanguageCreatorUI)
    (count : Z) (r : Rng) :
  ui_ok self = true → count ≤ 0 →
  ∃ self' r',
    generate_sentences self count r = Ok (self', r')
    ∧ output_text self'
      = output_text self
        ++ [(nl +:+ "📝 生成 " +:+ pretty count +:+ " 個句子：") +:+ nl;
            str_mul "-" 50 +:+ nl]
    ∧ (words_of (vocabulary self) "noun" = [] →
       length (words_of (vocabulary self') "noun") = 3%nat)
    ∧ (words_of (vocabulary self) "verb" = [] →
       length (words_of (vocabulary self') "verb") = 2%nat).
Proof.
  intros Hok Hcount.
  destruct (total_generate_sentences_lines self count Hok r)
    as (c & r' & Hrun & _ & (b & Hb & Hc) & lines & Hout & Hlines).
  destruct (seeded_store_seeded _ _ _ Hb Hc) as (_ & _ & _ & Hn & Hv).
  rewrite (range_nonpos count Hcount) in Hlines.
  apply Forall2_nil_inv_l in Hlines as ->.
  exists c, r'. by split_and!.
Qed.

Lemma generate_sentences_no_rounds_witness :
  ui_ok JapaneseLanguageCreatorUI_init = true
  ∧ 0 ≤ 0
  ∧ ∃ self' r',
      generate_sentences JapaneseLanguageCreatorUI_init 0 (λ n, n)
      = Ok (self', r')
      ∧ output_text self'
        = output_text JapaneseLanguageCreatorUI_init
          ++ [(nl +:+ "📝 生成 " +:+ pretty 0 +:+ " 個句子：") +:+ nl;
              str_mul "-" 50 +:+ nl]
      ∧ (words_of (vocabulary JapaneseLanguageCreatorUI_init) "noun" = [] →
         length (words_of (vocabulary self') "noun") = 3%nat)
      ∧ (words_of (vocabulary JapaneseLanguageCreatorUI_init) "verb" = [] →
         length (words_of (vocabulary self') "verb") = 2%nat).
Proof.
  split; [reflexivity |]. split; [lia |].
  apply (generate_sentences_no_rounds JapaneseLanguageCreatorUI_init 0 (λ n, n));
    [reflexivity | lia].
Defined.

(** X20. After [generate_vocabulary] the store holds nouns and a verb, so a
    following [generate_sentences] seeds nothing: it returns and leaves every
    word list as [generate_vocabulary] made it. *)
Theorem generate_vocabulary_then_sentences (self : JapaneseLanguageCreatorUI)
    (count : Z) (r : Rng) :
  ui_ok self = true →
  ∃ s1 r1 s2 r2,
    generate_vocabulary self r = Ok (s1, r1)
    ∧ generate_sentences s1 count r1 = Ok (s2, r2)
    ∧ ∀ k, words_of (vocabulary s2) k = words_of (vocabulary s1) k.
Proof.
  intros Hok. destruct (ui_ok_inv self Hok) as [Hph Hsy].
  destruct (total_generate_vocabulary_rounds self Hph r)
    as (s1 & r1 & Hrun1 & n1 & v & n2 & adj & n3
        & (Hp1 & _ & Hs1) & _ & _ & Kn & Kv & _).
  assert (ui_ok s1 = true) as Hok1.
  { unfold ui_ok. by rewrite Hp1, Hs1. }
  destruct (total_generate_sentences_lines s1 count Hok1 r1)
    as (s2 & r2 & Hrun2 & _ & (b & Hb & Hc) & _).
  destruct (seeded_store_seeded _ _ _ Hb Hc) as (Ho & Hn & Hv & _).
  exists s1, r1, s2, r2. split_and!; [done | done |].
  intros k.
  destruct (decide (k = "noun")) as [-> | Hkn].
  { apply Hn. rewrite Kn. by destruct (words_of (vocabulary self) "noun"). }
  destruct (decide (k = "verb")) as [-> | Hkv].
  { apply Hv. rewrite Kv. by destruct (words_of (vocabulary self) "verb"). }
  by apply Ho.
Qed.

Lemma generate_vocabulary_then_sentences_witness :
  ui_ok JapaneseLanguageCreatorUI_init = true
  ∧ ∃ s1 r1 s2 r2,
      generate_vocabulary JapaneseLanguageCreatorUI_init (λ n, n) = Ok (s1, r1)
      ∧ generate_sentences s1 1 r1 = Ok (s2, r2)
      ∧ ∀ k, words_of (vocabulary s2) k = words_of (vocabulary s1) k.
Proof.
  split; [reflexivity |].
  apply (generate_vocabulary_then_sentences JapaneseLanguageCreatorUI_init 1
           (λ n, n)).
  reflexivity.
Defined.

Lemma write_lines_nil s : write_lines s [] = s.
Proof. destruct s. unfold write_lines. simpl. by rewrite app_nil_r. Qed.

Lemma write_lines_app s l1 l2 :
  write_lines (write_lines s l1) l2 = write_lines s (l1 ++ l2).
Proof. unfold write_lines. simpl. by rewrite app_assoc. Qed.

Lemma append_output_write_lines s text :
  append_output s text = write_lines s [text +:+ nl].
Proof. reflexivity. Qed.

Lemma foldl_append_output {X} (f : X → string) s (xs : list X) :
  foldl (λ self x, append_output self (f x)) s xs
  = write_lines s (map (λ x, f x +:+ nl) xs).
Proof.
  revert s. induction xs as [|x xs IH]; intros s; simpl.
  - by rewrite write_lines_nil.
  - by rewrite IH, append_output_write_lines, write_lines_app.
Qed.

Lemma foldl_stat_lines s (v : dict (list string)) :
  foldl (λ self '(word_class, words),
           if list_bool words then
             append_output self
               ("   " +:+ word_class +:+ ": "
                +:+ pretty (Z.of_nat (length words)) +:+ " 個")
           else self)
    s v
  = write_lines s (stat_lines v).
Proof.
  revert s. induction v as [|[wc ws] v IH]; intros s; simpl.
  - by rewrite write_lines_nil.
  - rewrite IH. destruct (list_bool ws); simpl.
    + by rewrite append_output_write_lines, write_lines_app.
    + done.
Qed.

Lemma final_showcase_unfold a :
  final_showcase a
  = gbind (generate_sentences (write_lines a (showcase_header a)) 3)
      (λ self, gret (append_output self (nl +:+ str_mul "=" 50))).
Proof.
  unfold final_showcase. cbv zeta.
  rewrite foldl_append_output.
  rewrite foldl_stat_lines.
  rewrite !append_output_write_lines, !write_lines_app.
  reflexivity.
Qed.

Lemma total_final_showcase_lines a :
  ui_ok a = true →
  total (final_showcase a)
    (λ c, frame a c
          ∧ store_seeded a c
          ∧ ∃ lines,
              output_text c
              = output_text a
                ++ showcase_header a
                ++ [(nl +:+ "📝 生成 " +:+ pretty 3 +:+ " 個句子：") +:+ nl;
                    str_mul "-" 50 +:+ nl]
                ++ lines
                ++ [(nl +:+ str_mul "=" 50) +:+ nl]
              ∧ Forall2 (sentence_line c) (range 3) lines).
Proof.
  intros Hok. rewrite final_showcase_unfold.
  eapply total_bind.
  { apply (total_generate_sentences_lines (write_lines a (showcase_header a)) 3).
    exact Hok. }
  intros c (Hf & (b & Hb & Hc) & lines & Hout & Hlines).
  apply total_ret. split_and!.
  - destruct Hf as (? & ? & ?). by split_and!.
  - exact (seeded_store_seeded a b c Hb Hc).
  - exists lines. split.
    + unfold append_output. cbn [output_text]. rewrite Hout.
      unfold write_lines. cbn [output_text]. by rewrite <- !app_assoc.
    + eapply Forall2_impl; [exact Hlines |].
      intros i line Hl. by eapply sentence_line_transfer; [| | exact Hl].
Qed.

(** X21. [final_showcase] changes the store exactly as [generate_sentences]
    does: it only seeds an empty noun or verb class, leaves every class that
    holds words and every other class as it is, ends with both classes
    non-empty, and keeps the generator systems. *)
Theorem final_showcase_store (self : JapaneseLanguageCreatorUI) (r : Rng) :
  ui_ok self = true →
  ∃ self' r',
    final_showcase self r = Ok (self', r')
    ∧ frame self self'
    ∧ store_seeded self self'
    ∧ words_of (vocabulary self') "noun" ≠ []
    ∧ words_of (vocabulary self') "verb" ≠ [].
Proof.
  intros Hok.
  destruct (total_final_showcase_lines self Hok r)
    as (c & r' & Hrun & Hf & Hseed & _).
  destruct (store_seeded_nonempty _ _ Hseed) as [Hn Hv].
  by exists c, r'.
Qed.

Lemma final_showcase_store_witness :
  ui_ok JapaneseLanguageCreatorUI_init = true
  ∧ ∃ self' r',
      final_showcase JapaneseLanguageCreatorUI_init (λ n, n) = Ok (self', r')
      ∧ frame JapaneseLanguageCreatorUI_init self'
      ∧ store_seeded JapaneseLanguageCreatorUI_init self'
      ∧ words_of (vocabulary self') "noun" ≠ []
      ∧ words_of (vocabulary self') "verb" ≠ [].
Proof.
  split; [reflexivity |].
  apply (final_showcase_store JapaneseLanguageCreatorUI_init (λ n, n)).
  reflexivity.
Defined.

(** X22. [final_showcase] writes, in order: the banner and the phonology
    lines, one line per morphology rule in insertion order, the syntax lines,
    one statistics line per non-empty class of the store as it was when the
    handler started (the seeding of the sample sentences comes later and is
    not counted), then the output of [generate_sentences(3)] with its three
    numbered sentences, and a closing rule. *)
Theorem final_showcase_output (self : JapaneseLanguageCreatorUI) (r : Rng) :
  ui_ok self = true →
  ∃ self' r' lines,
    final_showcase self r = Ok (self', r')
    ∧ output_text self'
      = output_text self
        ++ showcase_header self
        ++ [(nl +:+ "📝 生成 " +:+ pretty 3 +:+ " 個句子：") +:+ nl;
            str_mul "-" 50 +:+ nl]
        ++ lines
        ++ [(nl +:+ str_mul "=" 50) +:+ nl]
    ∧ Forall2 (sentence_line self') (range 3) lines.
Proof.
  intros Hok.
  destruct (total_final_showcase_lines self Hok r)
    as (c & r' & Hrun & _ & _ & lines & Hout & Hlines).
  by exists c, r', lines.
Qed.

Lemma final_showcase_output_witness :
  ui_ok JapaneseLanguageCreatorUI_init = true
  ∧ ∃ self' r' lines,
      final_showcase JapaneseLanguageCreatorUI_init (λ n, n) = Ok (self', r')
      ∧ output_text self'
        = output_text JapaneseLanguageCreatorUI_init
          ++ showcase_header JapaneseLanguageCreatorUI_init
          ++ [(nl +:+ "📝 生成 " +:+ pretty 3 +:+ " 個句子：") +:+ nl;
              str_mul "-" 50 +:+ nl]
          ++ lines
          ++ [(nl +:+ str_mul "=" 50) +:+ nl]
      ∧ Forall2 (sentence_line self') (range 3) lines.
Proof.
  split; [reflexivity |].
  apply (final_showcase_output JapaneseLanguageCreatorUI_init (λ n, n)).
  reflexivity.
Defined.

(** X23. With an empty consonant or vowel collection [generate_vocabulary]
    always fails with [IndexError], and so does [generate_sentences] whenever
    the noun class is empty and has to be seeded. *)
Theorem handlers_fail_on_empty_phonology (self : JapaneseLanguageCreatorUI)
    (count : Z) (r : Rng) :
  consonants (phonology self) = [] ∨ vowels (phonology self) = [] →
  generate_vocabulary self r = Raise IndexError
  ∧ (words_of (vocabulary self) "noun" = [] →
     generate_sentences self count r = Raise IndexError).
Proof.
  intros Hempty. split.
  - unfold generate_vocabulary. cbn [for_each enumerate].
    destruct (total_randint 2 3 ltac:(lia) r) as (n & r1 & Hn & Hb).
    unfold gbind. rewrite Hn.
    rewrite (generate_word_raises _ n "noun" r1); [done | exact Hempty | lia].
  - intros Hnoun. unfold generate_sentences, seed_vocabulary.
    set (a1 := append_output (append_output self _) _).
    destruct (vocabulary_getitem_spec a1 "noun") as (a2 & -> & (Hp & _)).
    change (words_of (vocabulary a1) "noun")
      with (words_of (vocabulary self) "noun").
    rewrite Hnoun. change (range 3) with [0; 1; 2]. simpl.
    unfold gbind.
    rewrite (generate_word_raises (phonology a2) 2 "noun" r); [done | | lia].
    by rewrite Hp.
Qed.

Lemma handlers_fail_on_empty_phonology_witness :
  (consonants (phonology
     {| phonology := {| consonants := []; vowels := ["a"]; n_end := [""] |};
        morphology := MorphologySystem_default;
        syntax := SyntaxSystem_default;
        vocabulary := []; output_text := [] |}) = []
   ∨ vowels (phonology
     {| phonology := {| consonants := []; vowels := ["a"]; n_end := [""] |};
        morphology := MorphologySystem_default;
        syntax := SyntaxSystem_default;
        vocabulary := []; output_text := [] |}) = [])
  ∧ generate_vocabulary
      {| phonology := {| consonants := []; vowels := ["a"]; n_end := [""] |};
         morphology := MorphologySystem_default;
         syntax := SyntaxSystem_default;
         vocabulary := []; output_text := [] |} (λ n, n)
    = Raise IndexError
  ∧ (words_of (vocabulary
       {| phonology := {| consonants := []; vowels := ["a"]; n_end := [""] |};
          morphology := MorphologySystem_default;
          syntax := SyntaxSystem_default;
          vocabulary := []; output_text := [] |}) "noun" = [] →
     generate_sentences
       {| phonology := {| consonants := []; vowels := ["a"]; n_end := [""] |};
          morphology := MorphologySystem_default;
          syntax := SyntaxSystem_default;
          vocabulary := []; output_text := [] |} 1 (λ n, n)
     = Raise IndexError).
Proof.
  split; [left; reflexivity |].
  apply (handlers_fail_on_empty_phonology
           {| phonology := {| consonants := []; vowels := ["a"]; n_end := [""] |};
              morphology := MorphologySystem_default;
              syntax := SyntaxSystem_default;
              vocabulary := []; output_text := [] |} 1 (λ n, n)).
  left. reflexivity.
Defined.
